(** * Document question answering: chunking, indexing, retrieval, excerpts

    A shallow embedding of [backend/app/main.py].  Python [str] values are
    sequences of Unicode code points, so a string is a list of code points
    here: [len] is [length], and the bullet and the ellipsis are one
    character each, as they are for Python. *)

From Stdlib Require Import String Ascii.
From Stdlib Require Import List Arith ZArith NArith Lia Bool.
From Stdlib Require Import QArith Sorting.Sorted Sorting.Permutation.
From Stdlib Require Import Numbers.DecimalString.
From Stdlib Require DecimalZ DecimalPos.
Import ListNotations.
Close Scope Q_scope.

Set Implicit Arguments.

(** ** Python strings *)

Module Py.

Definition char := N.
Definition str := list char.

Definition lit (s : string) : str :=
  map N_of_ascii (list_ascii_of_string s).

Definition nl : char := 10%N.
Definition space : char := 32%N.
Definition dot : char := 46%N.
Definition dquote : char := 34%N.
Definition bullet : char := 8226%N.      (* U+2022 *)
Definition ellipsis : char := 8230%N.    (* U+2026 *)

(** The characters [str.strip], [str.rstrip] and [str.split] treat as
    whitespace. *)
Definition isspace (c : char) : bool :=
  (((9 <=? c) && (c <=? 13)) || ((28 <=? c) && (c <=? 32))
   || (c =? 133) || (c =? 160) || (c =? 5760)
   || ((8192 <=? c) && (c <=? 8202))
   || (c =? 8232) || (c =? 8233) || (c =? 8239) || (c =? 8287)
   || (c =? 12288))%N.

Fixpoint lstrip (s : str) : str :=
  match s with
  | [] => []
  | c :: s' => if isspace c then lstrip s' else s
  end.

Definition rstrip (s : str) : str := rev (lstrip (rev s)).

Definition strip (s : str) : str := rstrip (lstrip s).

(** Truth value of a string: [if s] holds of the non-empty ones. *)
Definition truthy (s : str) : bool :=
  match s with [] => false | _ => true end.

(** [s[:n]] for an integer [n]; a negative [n] counts from the end. *)
Definition slice_to {A : Type} (l : list A) (n : Z) : list A :=
  if (0 <=? n)%Z then firstn (Z.to_nat n) l
  else firstn (length l - Z.to_nat (- n)) l.

(** [s[a:b]] for [0 <= a]. *)
Definition slice {A : Type} (l : list A) (a b : nat) : list A :=
  firstn (b - a) (skipn a l).

Fixpoint startswith (p s : str) : bool :=
  match p, s with
  | [], _ => true
  | _ :: _, [] => false
  | a :: p', b :: s' => (a =? b)%N && startswith p' s'
  end.

(** [p in s]. *)
Fixpoint contains (p s : str) : bool :=
  startswith p s ||
  match s with
  | [] => false
  | _ :: s' => contains p s'
  end.

(** [s.replace(old, new)]: every occurrence, left to right, without
    overlap.  [skip] counts the characters of the last occurrence found
    that are still to be passed over. *)
Fixpoint replace_scan (old new : str) (skip : nat) (s : str) : str :=
  match s with
  | [] => []
  | c :: s' =>
      match skip with
      | S k => replace_scan old new k s'
      | O =>
          if startswith old s
          then new ++ replace_scan old new (length old - 1) s'
          else c :: replace_scan old new 0 s'
      end
  end.

Definition replace (old new s : str) : str :=
  match old with
  | [] => new ++ flat_map (fun c => c :: new) s
  | _ :: _ => replace_scan old new 0 s
  end.

(** [s.split()]: the maximal runs of non-whitespace characters. *)
Fixpoint split_ws (cur : str) (s : str) : list str :=
  match s with
  | [] => match cur with [] => [] | _ => [rev cur] end
  | c :: s' =>
      if isspace c
      then match cur with
           | [] => split_ws [] s'
           | _ => rev cur :: split_ws [] s'
           end
      else split_ws (c :: cur) s'
  end.

Definition split (s : str) : list str := split_ws [] s.

(** [sep.join(parts)]. *)
Fixpoint join (sep : str) (parts : list str) : str :=
  match parts with
  | [] => []
  | [p] => p
  | p :: ps => p ++ sep ++ join sep ps
  end.

(** [s.split("\n")]. *)
Fixpoint split_on (sep : char) (cur : str) (s : str) : list str :=
  match s with
  | [] => [rev cur]
  | c :: s' =>
      if (c =? sep)%N then rev cur :: split_on sep [] s'
      else split_on sep (c :: cur) s'
  end.

Definition lines (s : str) : list str := split_on nl [] s.

(** [s.rfind(c)] for a one-character [c]: the last index, or [-1]. *)
Fixpoint rfind_from (c : char) (s : str) (i : Z) (last : Z) : Z :=
  match s with
  | [] => last
  | d :: s' => rfind_from c s' (i + 1)%Z (if (d =? c)%N then i else last)
  end.

Definition rfind (c : char) (s : str) : Z := rfind_from c s 0%Z (-1)%Z.

(** [str(n)] for an integer. *)
Definition str_of_Z (z : Z) : str :=
  lit (NilZero.string_of_int (Z.to_int z)).

Definition str_of_nat (n : nat) : str := str_of_Z (Z.of_nat n).

Definition eqb (a b : str) : bool :=
  if list_eq_dec N.eq_dec a b then true else false.

End Py.

Import Py.

(** ** Chunker *)

Definition CHUNK_SIZE : nat := 1000.
Definition CHUNK_OVERLAP : nat := 200.

Record Page := mkPage { page_number : Z; page_text : str }.

Record Chunk := mkChunk {
  chunk_index : nat;
  chunk_page : Z;
  chunk_text : str
}.

(** [extract_pages_from_pdf]: the reader yields one optional text per page;
    pages are numbered from 1 and a missing text becomes the empty string. *)
Fixpoint number_pages (i : nat) (texts : list (option str)) : list Page :=
  match texts with
  | [] => []
  | t :: ts =>
      mkPage (Z.of_nat i + 1)
             (match t with Some ((_ :: _) as s) => s | _ => [] end)
        :: number_pages (S i) ts
  end.

Definition extract_pages_from_pdf (reader_pages : list (option str)) : list Page :=
  number_pages 0 reader_pages.

(** State of the chunking loops: the chunks emitted so far, in emission
    order, and the next chunk index. *)
Definition ChunkState := (list Chunk * nat)%type.

(** One iteration of the [while] body for the window starting at [start]:
    the state after it and the next [start]. *)
Definition chunk_step (text : str) (pn : Z) (start : nat) (st : ChunkState)
  : ChunkState * nat :=
  let '(chunks, idx) := st in
  let end_ := start + CHUNK_SIZE in
  let chunk_str := strip (slice text start end_) in
  let st' := if truthy chunk_str
             then (chunks ++ [mkChunk idx pn chunk_str], S idx)
             else (chunks, idx) in
  (st', end_ - CHUNK_OVERLAP).

(** [while start < len(text)]: the loop stops by itself once [start] reaches
    the length; [fuel] bounds the number of iterations. *)
Fixpoint chunk_while (fuel : nat) (text : str) (pn : Z) (start : nat)
         (st : ChunkState) : ChunkState :=
  match fuel with
  | O => st
  | S fuel' =>
      if start <? length text
      then let '(st', start') := chunk_step text pn start st in
           chunk_while fuel' text pn start' st'
      else st
  end.

(** The loop of one page ([page["text"] or ""] is the text itself, a
    string).  Every iteration advances [start], so [len(text)] iterations
    are enough (see [chunk_while_fuel]). *)
Definition chunk_page_loop (p : Page) (st : ChunkState) : ChunkState :=
  chunk_while (length (page_text p)) (page_text p) (page_number p) 0 st.

Definition chunk_pages_from (pages : list Page) (st : ChunkState) : ChunkState :=
  fold_left (fun st p => chunk_page_loop p st) pages st.

Definition chunk_pages (pages : list Page) : list Chunk :=
  fst (chunk_pages_from pages ([], 0)).

(** ** Vector index (Chroma collection) and the other collaborators

    The embedding model, the nearest-neighbour search and the language model
    are outside the program.  The collection is modelled by the rows it
    holds; [delete(where={"doc_id": d})] drops the rows whose metadata names
    [d], [add] appends the new rows.  Calls that change the collection or
    reach the language model are recorded in a trace. *)

Record Metadata := mkMeta {
  md_doc_id : option str;
  md_page : option Z;
  md_chunk_index : option Z
}.

Record Row (E : Type) := mkRow {
  row_id : str;
  row_document : str;
  row_metadata : Metadata;
  row_embedding : E
}.

Definition Collection (E : Type) := list (Row E).

Inductive Event :=
| EvDelete (doc_id : str)
| EvAdd (ids : list str)
| EvLLM (prompt : str).

Record World (E : Type) := mkWorld {
  w_collection : Collection E;
  w_trace : list Event
}.

(** What [collection.query] answers: each field may be absent, and holds
    one list per query embedding. *)
Record QueryResult := mkQueryResult {
  res_documents : option (list (list (option str)));
  res_metadatas : option (list (list (option Metadata)));
  res_distances : option (list (list (option Q)))
}.

(** The state monad the handlers run in. *)
Definition M (E A : Type) := World E -> A * World E.

Definition ret {E A : Type} (a : A) : M E A := fun w => (a, w).

Definition bind {E A B : Type} (m : M E A) (f : A -> M E B) : M E B :=
  fun w => let '(a, w') := m w in f a w'.

Notation "x <- m ;; k" := (bind m (fun x => k))
  (at level 61, m at next level, right associativity).
Notation "m ;;; k" := (bind m (fun _ => k))
  (at level 61, right associativity).

Definition is_doc (doc_id : str) (m : Metadata) : bool :=
  match md_doc_id m with
  | Some d => Py.eqb d doc_id
  | None => false
  end.

Fixpoint zip_rows {E : Type} (ids documents : list str)
         (metadatas : list Metadata) (embeddings : list E) : list (Row E) :=
  match ids, documents, metadatas, embeddings with
  | i :: ids', d :: ds', m :: ms', e :: es' =>
      mkRow i d m e :: zip_rows ids' ds' ms' es'
  | _, _, _, _ => []
  end.

Definition collection_delete {E : Type} (doc_id : str) : M E unit :=
  fun w =>
    (tt, mkWorld
           (filter (fun r => negb (is_doc doc_id (row_metadata r)))
                   (w_collection w))
           (w_trace w ++ [EvDelete doc_id])).

Definition collection_add {E : Type} (ids documents : list str)
           (metadatas : list Metadata) (embeddings : list E) : M E unit :=
  fun w =>
    (tt, mkWorld
           (w_collection w ++ zip_rows ids documents metadatas embeddings)
           (w_trace w ++ [EvAdd ids])).

(** ** Indexer *)

Inductive Summary :=
| SummaryError (error : str)
| SummaryOk (pages chunks : nat).

Definition ERR_NO_TEXT : str :=
  lit "No extractable text found (scanned PDF). OCR not supported in v1.".
Definition ERR_NO_CHUNKS : str := lit "No valid text chunks found.".

Definition chunk_id (doc_id : str) (c : Chunk) : str :=
  doc_id ++ lit ":" ++ str_of_nat (chunk_index c).

Definition chunk_metadata (doc_id : str) (c : Chunk) : Metadata :=
  mkMeta (Some doc_id) (Some (chunk_page c)) (Some (Z.of_nat (chunk_index c))).

Section Indexer.
Variable E : Type.
(** [embedding_model.encode] gives one vector per text. *)
Variable embed : str -> E.

Definition encode (texts : list str) : list E := map embed texts.

(** [reader_pages] is what the PDF reader finds at [path]. *)
Definition index_doc_into_chroma (doc_id : str)
           (reader_pages : list (option str)) : M E Summary :=
  let pages := extract_pages_from_pdf reader_pages in
  let full_text := join [nl] (map page_text pages) in
  if negb (truthy (strip full_text)) then ret (SummaryError ERR_NO_TEXT)
  else
    let chunks := chunk_pages pages in
    match chunks with
    | [] => ret (SummaryError ERR_NO_CHUNKS)
    | _ :: _ =>
        let ids := map (chunk_id doc_id) chunks in
        let documents := map chunk_text chunks in
        let metadatas := map (chunk_metadata doc_id) chunks in
        collection_delete doc_id ;;;
        let embeddings := encode documents in
        collection_add ids documents metadatas embeddings ;;;
        ret (SummaryOk (length pages) (length chunks))
    end.
End Indexer.

(** ** Retriever *)

Record Retrieved := mkRetrieved {
  r_text : str;
  r_page : option Z;
  r_chunk_index : option Z;
  r_similarity : option Q
}.

(** [(res.get(k) or [[]])[0]]. *)
Definition first_or_empty {A : Type} (v : option (list (list A))) : list A :=
  match v with
  | Some (x :: _) => x
  | _ => []
  end.

Definition meta_page (m : option Metadata) : option Z :=
  match m with Some m' => md_page m' | None => None end.

Definition meta_chunk_index (m : option Metadata) : option Z :=
  match m with Some m' => md_chunk_index m' | None => None end.

(** The loop over [zip(docs, metas, dists)]; an absent or empty document
    is skipped. *)
Fixpoint collect (docs : list (option str)) (metas : list (option Metadata))
         (dists : list (option Q)) : list Retrieved :=
  match docs, metas, dists with
  | d :: docs', m :: metas', dist :: dists' =>
      match d with
      | Some ((_ :: _) as text) =>
          mkRetrieved text (meta_page m) (meta_chunk_index m)
                      (option_map (fun x => (1 - x)%Q) dist)
            :: collect docs' metas' dists'
      | _ => collect docs' metas' dists'
      end
  | _, _, _ => []
  end.

Definition Key := (option Z * option Z)%type.

Definition key_of (r : Retrieved) : Key := (r_page r, r_chunk_index r).

Definition key_eq_dec (a b : Key) : {a = b} + {a <> b}.
Proof. repeat decide equality. Defined.

Definition key_eqb (a b : Key) : bool :=
  if key_eq_dec a b then true else false.

Definition key_in (k : Key) (seen : list Key) : bool :=
  existsb (key_eqb k) seen.

(** The dedupe loop, [seen] being [seen_keys]. *)
Fixpoint dedupe_from (seen : list Key) (rs : list Retrieved) : list Retrieved :=
  match rs with
  | [] => []
  | r :: rs' =>
      if key_in (key_of r) seen then dedupe_from seen rs'
      else r :: dedupe_from (key_of r :: seen) rs'
  end.

Definition dedupe (rs : list Retrieved) : list Retrieved := dedupe_from [] rs.

(** The sort key, [x.get("similarity") or 0.0]. *)
Definition sim_key (r : Retrieved) : Q :=
  match r_similarity r with
  | Some s => if Qeq_bool s 0 then 0%Q else s
  | None => 0%Q
  end.

(** [list.sort(key=..., reverse=True)] is a stable sort; it is modelled by
    the stable insertion sort, which has the same result. *)
Fixpoint insert_desc (x : Retrieved) (l : list Retrieved) : list Retrieved :=
  match l with
  | [] => [x]
  | y :: l' =>
      if Qle_bool (sim_key y) (sim_key x) then x :: l
      else y :: insert_desc x l'
  end.

Definition sort_desc (l : list Retrieved) : list Retrieved :=
  fold_right insert_desc [] l.

Section Retriever.
Variable E : Type.
Variable embed : str -> E.
(** [collection.query(query_embeddings, n_results, where={"doc_id": d})]. *)
Variable query : Collection E -> list E -> Z -> str -> QueryResult.

Definition retrieve_top_k (c : Collection E) (doc_id question : str)
           (top_k : Z) : list Retrieved :=
  let q_emb := encode embed [question] in
  let n_results := Z.max (top_k * 3) top_k in
  let res := query c q_emb n_results doc_id in
  let docs := first_or_empty (res_documents res) in
  let metas := first_or_empty (res_metadatas res) in
  let dists := first_or_empty (res_distances res) in
  let retrieved := collect docs metas dists in
  let deduped := dedupe retrieved in
  slice_to (sort_desc deduped) top_k.

(** The list [retrieved] of [retrieve_top_k]: the entries built from the
    answer of the index, in its order. *)
Definition retrieved_of (c : Collection E) (doc_id question : str)
           (top_k : Z) : list Retrieved :=
  let res := query c (encode embed [question]) (Z.max (top_k * 3) top_k)
                   doc_id in
  collect (first_or_empty (res_documents res))
          (first_or_empty (res_metadatas res))
          (first_or_empty (res_distances res)).
End Retriever.

(** ** Prompt and excerpts *)

(** [str] of a value that is an integer or [None]. *)
Definition str_of_opt (v : option Z) : str :=
  match v with
  | Some z => str_of_Z z
  | None => lit "None"
  end.

Definition context_block (r : Retrieved) : str :=
  lit "(page " ++ str_of_opt (r_page r) ++ lit ") " ++ r_text r.

Definition FALLBACK : str := lit "I don't know based on the provided document.".

Definition build_prompt (question : str) (retrieved_chunks : list Retrieved) : str :=
  let context_blocks := map context_block retrieved_chunks in
  let context := join ([nl; nl] ++ lit "---" ++ [nl; nl]) context_blocks in
  lit "You are a careful, precise assistant." ++ [nl]
  ++ lit "Answer the user's question using ONLY the context below." ++ [nl]
  ++ lit "Prefer either a short paragraph or a simple list where each item is on its own line." ++ [nl]
  ++ lit "Write in plain text only: do NOT use Markdown formatting such as **bold**." ++ [nl]
  ++ lit "Do NOT include citations like [chunk X] or (page X) inside the answer." ++ [nl]
  ++ lit "If the answer is not in the context, say: " ++ [dquote] ++ FALLBACK
  ++ [dquote] ++ lit "." ++ [nl; nl]
  ++ lit "When listing multiple items, put each item on its own line starting with '- '. Avoid cramming many items into one long sentence." ++ [nl; nl]
  ++ lit "Question: " ++ question ++ [nl; nl]
  ++ lit "Context:" ++ [nl] ++ context ++ [nl].

(** [" ".join(text.replace(bullet, " ").split())]. *)
Definition collapse (text : str) : str :=
  join [space] (split (replace [bullet] [space] text)).

(** [int(max_chars * 0.6)]: the product is a double and [int] truncates
    towards zero; for [|max_chars| < 2^50] this is the truncated quotient
    of [3 * max_chars] by [5]. *)
Definition int_mul_06 (max_chars : Z) : Z := Z.quot (3 * max_chars) 5.

Definition trim_excerpt (text : str) (max_chars : Z) : str :=
  if negb (truthy text) then []
  else
    let t := collapse text in
    if (Z.of_nat (length t) <=? max_chars)%Z then t
    else
      let snippet := slice_to t (max_chars + 40) in
      let cut := rfind dot snippet in
      if (cut =? -1)%Z || (cut <? int_mul_06 max_chars)%Z
      then rstrip (slice_to t max_chars) ++ [ellipsis]
      else rstrip (slice_to snippet (cut + 1)) ++ [ellipsis].

(** Which of the three [return]s of [trim_excerpt] is taken. *)
Inductive Branch := BrEmpty | BrShort | BrHardCut | BrSentence.

Definition trim_branch (text : str) (max_chars : Z) : Branch :=
  if negb (truthy text) then BrEmpty
  else
    let t := collapse text in
    if (Z.of_nat (length t) <=? max_chars)%Z then BrShort
    else
      let snippet := slice_to t (max_chars + 40) in
      let cut := rfind dot snippet in
      if (cut =? -1)%Z || (cut <? int_mul_06 max_chars)%Z
      then BrHardCut
      else BrSentence.

(** ** The [/ask] route *)

Record AskRequest := mkAskRequest {
  doc_id : str;
  question : str;
  top_k : Z
}.

(** A request body as received; [top_k] may be left out, and the schema
    then gives it its default. *)
Record AskBody := mkAskBody {
  body_doc_id : str;
  body_question : str;
  body_top_k : option Z
}.

Definition AskRequest_of_body (b : AskBody) : AskRequest :=
  mkAskRequest (body_doc_id b) (body_question b)
               (match body_top_k b with Some k => k | None => 5%Z end).

Record Evidence := mkEvidence { ev_page : option Z; ev_excerpt : str }.

Record AskResponse := mkAskResponse {
  resp_doc_id : str;
  resp_question : str;
  resp_answer : str;
  resp_sources : list Z;
  resp_evidence : list Evidence
}.

Inductive AskResult :=
| AskOk (r : AskResponse)
| HTTPException (status_code : Z) (detail : str).

(** The post-processing of the model's [output_text] in [ask]. *)
Definition clean_answer (output_text : str) : str :=
  let answer := strip output_text in
  let answer := replace (lit "**") [] answer in
  if contains (lit " - ") answer && negb (contains (nl :: lit "- ") answer)
  then replace (lit " - ") (nl :: lit "- ") answer
  else answer.

(** [sorted(set(...))] on page numbers. *)
Fixpoint insert_page (p : Z) (l : list Z) : list Z :=
  match l with
  | [] => [p]
  | q :: l' =>
      if (p <? q)%Z then p :: l
      else if (p =? q)%Z then l
      else q :: insert_page p l'
  end.

Definition sorted_set (l : list Z) : list Z := fold_right insert_page [] l.

Fixpoint pages_not_none (rs : list Retrieved) : list Z :=
  match rs with
  | [] => []
  | r :: rs' =>
      match r_page r with
      | Some p => p :: pages_not_none rs'
      | None => pages_not_none rs'
      end
  end.

Section Ask.
Variable E : Type.
Variable embed : str -> E.
Variable query : Collection E -> list E -> Z -> str -> QueryResult.
(** [client.responses.create]: [inl] of the [output_text], or [inr] of
    the message of the exception raised. *)
Variable llm : str -> str + str.

Definition responses_create (prompt : str) : M E (str + str) :=
  fun w => (llm prompt,
            mkWorld (w_collection w) (w_trace w ++ [EvLLM prompt])).

Definition read_collection : M E (Collection E) :=
  fun w => (w_collection w, w).

Definition ask (payload : AskRequest) : M E AskResult :=
  c <- read_collection ;;
  let retrieved :=
    retrieve_top_k embed query c (doc_id payload) (question payload)
                   (top_k payload) in
  match retrieved with
  | [] =>
      ret (AskOk (mkAskResponse (doc_id payload) (question payload)
                                FALLBACK [] []))
  | _ :: _ =>
      let prompt := build_prompt (question payload) retrieved in
      response <- responses_create prompt ;;
      match response with
      | inr exc =>
          ret (HTTPException 502
                 (lit "Upstream model error or timeout: " ++ exc))
      | inl output_text =>
          let answer := clean_answer output_text in
          let pages_used := sorted_set (pages_not_none retrieved) in
          let evidence :=
            map (fun r => mkEvidence (r_page r) (trim_excerpt (r_text r) 260))
                (slice_to retrieved 2) in
          ret (AskOk (mkAskResponse (doc_id payload) (question payload)
                                    answer pages_used evidence))
      end
  end.

(** The route applied to a request body. *)
Definition ask_route (b : AskBody) : M E AskResult :=
  ask (AskRequest_of_body b).
End Ask.

(** ** Calls that raise

    [collection.query] checks [n_results] before it searches the index and
    raises for a number that is not positive.  [retrieve_top_k] has no
    handler for it, and [ask] calls [retrieve_top_k] before its [try]
    block, so the exception leaves both, and the server answers it with an
    HTTP error 500 of its own. *)

Inductive Outcome (A : Type) :=
| Returns (a : A)
| Raises.

Arguments Returns {A} a.
Arguments Raises {A}.

Definition query_rejects (n_results : Z) : bool := (n_results <=? 0)%Z.

Section Calls.
Variable E : Type.
Variable embed : str -> E.
Variable query : Collection E -> list E -> Z -> str -> QueryResult.
Variable llm : str -> str + str.

(** A call of [retrieve_top_k]: the list it returns, unless the query
    raised. *)
Definition retrieve_top_k_call (c : Collection E) (doc_id question : str)
           (top_k : Z) : Outcome (list Retrieved) :=
  if query_rejects (Z.max (top_k * 3) top_k) then Raises
  else Returns (retrieve_top_k embed query c doc_id question top_k).

(** A call of [ask]: what the handler returns or raises itself, unless
    the retrieval raised; nothing has been done by then. *)
Definition ask_call (payload : AskRequest) (w : World E)
  : Outcome AskResult * World E :=
  match retrieve_top_k_call (w_collection w) (doc_id payload)
                            (question payload) (top_k payload) with
  | Raises => (Raises, w)
  | Returns _ =>
      let '(r, w') := ask embed query llm payload w in (Returns r, w')
  end.
End Calls.

(** The language-model prompts of a trace. *)
Fixpoint llm_calls (tr : list Event) : list str :=
  match tr with
  | [] => []
  | EvLLM p :: tr' => p :: llm_calls tr'
  | _ :: tr' => llm_calls tr'
  end.

(** The index operations of a trace. *)
Definition is_index_op (e : Event) : bool :=
  match e with
  | EvDelete _ | EvAdd _ => true
  | EvLLM _ => false
  end.

(** The ids of the rows of [d] in a collection. *)
Definition doc_ids {E : Type} (d : str) (c : Collection E) : list str :=
  map (@row_id E) (filter (fun r => is_doc d (row_metadata r)) c).

(** The invariant of the chunking loops: the indices emitted so far are
    [0, 1, ..., idx - 1] in this order, [idx] being the next index. *)
Definition indexed (st : ChunkState) : Prop :=
  map chunk_index (fst st) = seq 0 (snd st).

(** The position of the first entry with key [k] in the index's result
    order. *)
Fixpoint first_index (k : Key) (rs : list Retrieved) : nat :=
  match rs with
  | [] => 0
  | r :: rs' => if key_eqb (key_of r) k then 0 else S (first_index k rs')
  end.

(** [a] is ranked before [b]: a larger similarity, or the same one and an
    earlier place in the result order [rs]. *)
Definition ranks_before (rs : list Retrieved) (a b : Retrieved) : Prop :=
  (sim_key b < sim_key a)%Q
  \/ ((sim_key b == sim_key a)%Q
      /\ first_index (key_of a) rs < first_index (key_of b) rs).

(** ** Files, and the upload and delete routes *)

(** What the routes use of the file system: [os.path.join],
    [os.path.exists], [os.remove], the write of [open(path, "wb")], and the
    page texts the PDF reader finds at a path.  A call that can raise gives
    the disk after it and the message of the exception, when there is
    one. *)
Class FileSystem (D : Type) := {
  path_join : str -> str -> str;
  path_exists : str -> D -> bool;
  os_remove : str -> D -> D * option str;
  write_file : str -> list N -> D -> D * option str;
  pdf_reader_pages : str -> D -> list (option str)
}.

Record Server (E D : Type) := mkServer {
  srv_world : World E;
  srv_disk : D
}.

(** What a route answers: its JSON body, or the [HTTPException] raised. *)
Inductive Reply (A : Type) :=
| ReplyOk (body : A)
| ReplyError (status_code : Z) (detail : str).

Arguments ReplyOk {A} body.
Arguments ReplyError {A} status_code detail.

Definition MAX_FILE_BYTES : Z := 25 * 1024 * 1024.

(** [s.endswith(p)]. *)
Definition endswith (p s : str) : bool := startswith (rev p) (rev s).

(** [s.lower()] on the letters A to Z.  No other character lowercases to
    ".", "p", "d" or "f", nor to a text ending in one of them, so the test
    [s.lower().endswith(".pdf")] is the same with this [lower]. *)
Definition lower (s : str) : str :=
  map (fun c => if ((65 <=? c) && (c <=? 90))%N then (c + 32)%N else c) s.

Record UploadBody := mkUploadBody {
  up_doc_id : str;
  up_original_filename : str;
  up_pages : nat;
  up_chunks : nat;
  up_indexed : bool
}.

Section Routes.
Variable E : Type.
Variable embed : str -> E.
Variable D : Type.
Context {FS : FileSystem D}.
(** [os.getenv("DATA_DIR", "app/data")]. *)
Variable DATA_DIR : str.

Definition UPLOAD_DIR : str := path_join DATA_DIR (lit "uploads").

(** [upload_and_index]: [filename] and [content] are those of the file
    sent, [uuid] is the identifier drawn by [uuid.uuid4()]. *)
Definition upload_and_index (filename : str) (content : list N) (uuid : str)
           (s : Server E D) : Reply UploadBody * Server E D :=
  if negb (endswith (lit ".pdf") (lower filename))
  then (ReplyError 400
          (lit "Only PDF files are supported (expected a .pdf file)."), s)
  else
    let doc_id := uuid in
    if (Z.of_nat (length content) >? MAX_FILE_BYTES)%Z
    then (ReplyError 413
            (lit "File is too large. Maximum supported size is 25 MB."), s)
    else
      let saved_path := path_join UPLOAD_DIR (doc_id ++ lit ".pdf") in
      let '(disk, exc) := write_file saved_path content (srv_disk s) in
      match exc with
      | Some e =>
          (ReplyError 500 (lit "Failed to save file: " ++ e),
           mkServer (srv_world s) disk)
      | None =>
          let '(summary, w) :=
            index_doc_into_chroma embed doc_id
              (pdf_reader_pages saved_path disk) (srv_world s) in
          match summary with
          | SummaryError err => (ReplyError 400 err, mkServer w disk)
          | SummaryOk pages chunks =>
              (ReplyOk (mkUploadBody doc_id filename pages chunks true),
               mkServer w disk)
          end
      end.

(** [delete_doc]: the answer holds the [doc_id]. *)
Definition delete_doc (doc_id : str) (s : Server E D)
  : Reply str * Server E D :=
  let '(_, w) := collection_delete doc_id (srv_world s) in
  let pdf_path := path_join UPLOAD_DIR (doc_id ++ lit ".pdf") in
  if path_exists pdf_path (srv_disk s)
  then
    let '(disk, exc) := os_remove pdf_path (srv_disk s) in
    match exc with
    | Some e =>
        (ReplyError 500 (lit "Failed to delete PDF: " ++ e), mkServer w disk)
    | None => (ReplyOk doc_id, mkServer w disk)
    end
  else (ReplyOk doc_id, mkServer w (srv_disk s)).
End Routes.

(** A sample disk: the list of its files, on which nothing fails and where
    the reader finds one page, the content of the file. *)
Definition ListDisk := list (str * list N).

Definition remove_path (p : str) (d : ListDisk) : ListDisk :=
  filter (fun f => negb (Py.eqb (fst f) p)) d.

#[export] Instance list_disk : FileSystem ListDisk := {|
  path_join := fun a b => a ++ lit "/" ++ b;
  path_exists := fun p d => existsb (fun f => Py.eqb (fst f) p) d;
  os_remove := fun p d => (remove_path p d, None);
  write_file := fun p c d => ((p, c) :: remove_path p d, None);
  pdf_reader_pages := fun p d =>
    match find (fun f => Py.eqb (fst f) p) d with
    | Some (_, c) => [Some c]
    | None => []
    end
|}.

(** ** Further notions used in the statements *)

(** A chunk with its index moved up by [n]. *)
Definition shift_index (n : nat) (c : Chunk) : Chunk :=
  mkChunk (n + chunk_index c) (chunk_page c) (chunk_text c).

(** The window of a page text that starts at [k * (CHUNK_SIZE -
    CHUNK_OVERLAP)]. *)
Definition window (text : str) (k : nat) : str :=
  slice text (k * (CHUNK_SIZE - CHUNK_OVERLAP))
        (k * (CHUNK_SIZE - CHUNK_OVERLAP) + CHUNK_SIZE).

(** The decimal digits. *)
Definition isdigit (c : char) : bool := ((48 <=? c) && (c <=? 57))%N.

(** A word: a non-empty text without whitespace. *)
Definition wordb (w : str) : bool :=
  truthy w && forallb (fun c => negb (isspace c)) w.

(** ** Sample data *)

Definition sample_meta (page chunk : Z) : option Metadata :=
  Some (mkMeta (Some (lit "doc")) (Some page) (Some chunk)).

(** An index answering five rows: the third repeats the key of the first,
    the fourth ties with the second, the fifth has no text. *)
Definition sample_query (_ : Collection unit) (_ : list unit) (_ : Z)
           (_ : str) : QueryResult :=
  mkQueryResult
    (Some [[Some (lit "alpha"); Some (lit "beta"); Some (lit "alpha again");
            Some (lit "gamma"); Some []]])
    (Some [[sample_meta 1 0; sample_meta 1 1; sample_meta 1 0;
            sample_meta 2 2; sample_meta 3 3]])
    (Some [[Some (1 # 2)%Q; Some (1 # 4)%Q; Some (1 # 10)%Q;
            Some (1 # 4)%Q; Some (0 # 1)%Q]]).

(** An index with nothing for the document asked. *)
Definition empty_query (_ : Collection unit) (_ : list unit) (_ : Z)
           (_ : str) : QueryResult :=
  mkQueryResult (Some [[]]) (Some [[]]) (Some [[]]).

Definition sample_llm (_ : str) : str + str :=
  inl (lit "Item1 - Item2 - Item3").

(** An index that answers as many rows as asked, each with a key of its
    own, the nearest first. *)
Definition numbered_query (_ : Collection unit) (_ : list unit)
           (n_results : Z) (_ : str) : QueryResult :=
  let rows := seq 0 (Z.to_nat n_results) in
  mkQueryResult
    (Some [map (fun i => Some (lit "row " ++ str_of_nat i)) rows])
    (Some [map (fun i => sample_meta (Z.of_nat i + 1) (Z.of_nat i)) rows])
    (Some [map (fun i => Some (Z.of_nat i # 100)%Q) rows]).

Unset Implicit Arguments.

(** * Properties *)

(** ** Strings *)

Lemma eqb_eq (a b : str) : Py.eqb a b = true <-> a = b.
Proof.
  unfold Py.eqb. destruct (list_eq_dec N.eq_dec a b); split; congruence.
Qed.

Lemma eqb_refl (a : str) : Py.eqb a a = true.
Proof. now apply eqb_eq. Qed.

Lemma lstrip_length (s : str) : length (lstrip s) <= length s.
Proof.
  induction s as [|c s IH]; simpl; [lia|].
  destruct (isspace c); simpl; lia.
Qed.

Lemma rstrip_length (s : str) : length (rstrip s) <= length s.
Proof.
  unfold rstrip. rewrite length_rev.
  etransitivity; [apply lstrip_length|]. now rewrite length_rev.
Qed.

Lemma lstrip_head (c : char) (s : str) :
  isspace c = false -> lstrip (c :: s) = c :: s.
Proof. intros H. simpl. now rewrite H. Qed.

(** Stripping does nothing to a text that neither starts nor ends with
    whitespace. *)
Lemma strip_no_space (s : str) :
  forallb (fun c => negb (isspace c)) s = true -> strip s = s.
Proof.
  intros H. unfold strip, rstrip.
  assert (L : forall t, forallb (fun c => negb (isspace c)) t = true ->
                        lstrip t = t).
  { intros [|c t] Ht; [reflexivity|]. simpl in Ht.
    apply andb_true_iff in Ht as [Hc _].
    apply lstrip_head. now destruct (isspace c). }
  rewrite (L s H). rewrite L.
  - apply rev_involutive.
  - rewrite forallb_forall in *. intros x Hx. apply H. now apply in_rev.
Qed.

Lemma forallb_firstn {A : Type} (p : A -> bool) (n : nat) :
  forall l : list A, forallb p l = true -> forallb p (firstn n l) = true.
Proof.
  induction n as [|n IH]; intros [|x l] H; simpl in *; try reflexivity.
  apply andb_true_iff in H as [Hx Hl]. rewrite Hx. simpl. now apply IH.
Qed.

Lemma forallb_skipn {A : Type} (p : A -> bool) (n : nat) :
  forall l : list A, forallb p l = true -> forallb p (skipn n l) = true.
Proof.
  induction n as [|n IH]; intros [|x l] H; simpl in *; try easy.
  apply andb_true_iff in H as [_ Hl]. now apply IH.
Qed.

Lemma slice_to_length {A : Type} (l : list A) (n : Z) :
  (0 <= n)%Z -> (Z.of_nat (length (slice_to l n)) <= n)%Z.
Proof.
  intros Hn. unfold slice_to.
  destruct (Z.leb_spec 0 n); [|lia].
  rewrite length_firstn. lia.
Qed.

Lemma slice_to_le {A : Type} (l : list A) (n : Z) :
  length (slice_to l n) <= length l.
Proof.
  unfold slice_to. destruct (0 <=? n)%Z; rewrite length_firstn; lia.
Qed.

(** ** Chunker *)

Lemma chunk_assert : CHUNK_OVERLAP < CHUNK_SIZE.
Proof. unfold CHUNK_OVERLAP, CHUNK_SIZE. lia. Qed.

Lemma chunk_step_next (text : str) (pn : Z) (start : nat) (st : ChunkState) :
  snd (chunk_step text pn start st) = start + CHUNK_SIZE - CHUNK_OVERLAP.
Proof. unfold chunk_step. now destruct st. Qed.

Lemma chunk_while_done (fuel : nat) (text : str) (pn : Z) (start : nat)
      (st : ChunkState) :
  length text <= start -> chunk_while fuel text pn start st = st.
Proof.
  intros H. destruct fuel; simpl; [reflexivity|].
  destruct (Nat.ltb_spec start (length text)); [lia|reflexivity].
Qed.

(** The result of the loop does not depend on the fuel, once there is
    enough of it. *)
Lemma chunk_while_fuel (f1 f2 : nat) (text : str) (pn : Z) :
  forall (start : nat) (st : ChunkState),
    length text - start <= f1 -> length text - start <= f2 ->
    chunk_while f1 text pn start st = chunk_while f2 text pn start st.
Proof.
  revert f2. induction f1 as [|f1 IH]; intros f2 start st H1 H2.
  - rewrite !chunk_while_done by lia. reflexivity.
  - destruct f2 as [|f2].
    + rewrite !chunk_while_done by lia. reflexivity.
    + simpl. destruct (Nat.ltb_spec start (length text)); [|reflexivity].
      pose proof (chunk_step_next text pn start st) as Hn.
      destruct (chunk_step text pn start st) as [st' start']. simpl in Hn.
      pose proof chunk_assert.
      apply IH; lia.
Qed.

(** One turn of the loop. *)
Lemma chunk_while_turn (fuel : nat) (text : str) (pn : Z) (start : nat)
      (st : ChunkState) :
  length text - start <= fuel -> start < length text ->
  chunk_while fuel text pn start st =
  chunk_while fuel text pn (start + CHUNK_SIZE - CHUNK_OVERLAP)
              (fst (chunk_step text pn start st)).
Proof.
  intros Hf Hlt. destruct fuel as [|fuel]; [lia|].
  change (chunk_while (S fuel) text pn start st)
    with (if start <? length text
          then let '(st', start') := chunk_step text pn start st in
               chunk_while fuel text pn start' st'
          else st).
  destruct (Nat.ltb_spec start (length text)); [|lia].
  pose proof (chunk_step_next text pn start st) as Hn.
  destruct (chunk_step text pn start st) as [st' start']. simpl in Hn.
  simpl fst. subst start'. pose proof chunk_assert.
  apply chunk_while_fuel; lia.
Qed.

(** The windows of a page: the loop runs its body at
    [start, start + step, ..., start + (m - 1) * step], where [m] is the
    first count for which [start + m * step] is no longer inside the text. *)
Lemma chunk_while_windows (fuel : nat) (text : str) (pn : Z) :
  forall (start : nat) (st : ChunkState),
    length text - start <= fuel ->
    exists m : nat,
      chunk_while fuel text pn start st =
      fold_left (fun st s => fst (chunk_step text pn s st))
                (map (fun k => start + k * (CHUNK_SIZE - CHUNK_OVERLAP))
                     (seq 0 m)) st
      /\ (forall k, k < m ->
                    start + k * (CHUNK_SIZE - CHUNK_OVERLAP) < length text)
      /\ length text <= start + m * (CHUNK_SIZE - CHUNK_OVERLAP).
Proof.
  induction fuel as [|fuel IH]; intros start st Hf.
  - exists 0. simpl. repeat split; try lia.
  - destruct (Nat.ltb_spec start (length text)) as [Hlt|Hge].
    + rewrite chunk_while_turn by lia.
      pose proof chunk_assert as Hco.
      assert (Hf' : length text - (start + CHUNK_SIZE - CHUNK_OVERLAP) <= fuel)
        by lia.
      rewrite (chunk_while_fuel (S fuel) fuel) by lia.
      destruct (IH (start + CHUNK_SIZE - CHUNK_OVERLAP)
                   (fst (chunk_step text pn start st)) Hf')
        as (m & Heq & Hin & Hout).
      exists (S m). split; [|split].
      * rewrite Heq, <- cons_seq, map_cons, <- seq_shift, map_map.
        cbn [fold_left]. rewrite Nat.mul_0_l, Nat.add_0_r. f_equal.
        apply map_ext. intros k. lia.
      * intros [|k] Hk; [lia|]. specialize (Hin k ltac:(lia)). lia.
      * lia.
    + exists 0. rewrite chunk_while_done by lia. simpl.
      repeat split; try lia.
Qed.

Lemma chunk_step_indexed (text : str) (pn : Z) (start : nat) (st : ChunkState) :
  indexed st -> indexed (fst (chunk_step text pn start st)).
Proof.
  unfold indexed, chunk_step. destruct st as [chunks idx]. cbn [fst snd].
  intros H. destruct (truthy _); cbn [fst snd]; [|exact H].
  rewrite map_app, H, seq_S. reflexivity.
Qed.

Lemma chunk_while_indexed (fuel : nat) (text : str) (pn : Z) :
  forall (start : nat) (st : ChunkState),
    indexed st -> indexed (chunk_while fuel text pn start st).
Proof.
  induction fuel as [|fuel IH]; intros start st H; simpl; [exact H|].
  destruct (start <? length text); [|exact H].
  pose proof (chunk_step_indexed text pn start st H) as H'.
  destruct (chunk_step text pn start st) as [st' start']. now apply IH.
Qed.

Lemma chunk_pages_from_indexed (pages : list Page) :
  forall st : ChunkState, indexed st -> indexed (chunk_pages_from pages st).
Proof.
  induction pages as [|p pages IH]; intros st H; simpl; [exact H|].
  apply IH. now apply chunk_while_indexed.
Qed.

Lemma indexed_length (st : ChunkState) :
  indexed st -> length (fst st) = snd st.
Proof.
  unfold indexed. intros H.
  rewrite <- (length_map chunk_index), H. apply length_seq.
Qed.

(** C2: a page of 1200 characters without whitespace gives exactly two
    chunks, the characters [0:1000] and [800:1200]; and for every page the
    loop body runs on the windows starting at 0, step, 2 * step, ... with
    step = CHUNK_SIZE - CHUNK_OVERLAP, and stops at the first start that is
    not below the length of the page text. *)
Theorem chunk_pages_windows (pn : Z) (text : str)
        (Hlen : length text = 1200)
        (Hns : forallb (fun c => negb (isspace c)) text = true) :
  chunk_pages [mkPage pn text] =
    [mkChunk 0 pn (slice text 0 1000); mkChunk 1 pn (slice text 800 1200)]
  /\ forall (p : Page) (st : ChunkState),
      exists m : nat,
        chunk_page_loop p st =
          fold_left
            (fun st s => fst (chunk_step (page_text p) (page_number p) s st))
            (map (fun k => k * (CHUNK_SIZE - CHUNK_OVERLAP)) (seq 0 m)) st
        /\ (forall k, k < m ->
              k * (CHUNK_SIZE - CHUNK_OVERLAP) < length (page_text p))
        /\ length (page_text p) <= m * (CHUNK_SIZE - CHUNK_OVERLAP).
Proof.
  assert (G : forall (p : Page) (st : ChunkState),
      exists m : nat,
        chunk_page_loop p st =
          fold_left
            (fun st s => fst (chunk_step (page_text p) (page_number p) s st))
            (map (fun k => k * (CHUNK_SIZE - CHUNK_OVERLAP)) (seq 0 m)) st
        /\ (forall k, k < m ->
              k * (CHUNK_SIZE - CHUNK_OVERLAP) < length (page_text p))
        /\ length (page_text p) <= m * (CHUNK_SIZE - CHUNK_OVERLAP)).
  { intros p st. unfold chunk_page_loop.
    destruct (chunk_while_windows (length (page_text p)) (page_text p)
                (page_number p) 0 st ltac:(lia)) as (m & Heq & Hin & Hout).
    exists m. repeat split; auto. }
  split; [|exact G].
  unfold chunk_pages, chunk_pages_from. simpl fold_left.
  destruct (G (mkPage pn text) ([], 0)) as (m & Heq & Hin & Hout).
  simpl page_text in *. simpl page_number in *. rewrite Heq.
  assert (Hm : m = 2).
  { unfold CHUNK_SIZE, CHUNK_OVERLAP in *. rewrite Hlen in *.
    destruct m as [|[|[|m]]]; try lia.
    specialize (Hin 2 ltac:(lia)). lia. }
  subst m. clear Heq Hin Hout.
  assert (Hsub : forall a b, strip (slice text a b) = slice text a b).
  { intros a b. apply strip_no_space. unfold slice.
    now apply forallb_firstn, forallb_skipn. }
  assert (Hnz : forall a b, a < b -> b <= 1200 -> truthy (slice text a b) = true).
  { intros a b Hab Hb.
    assert (L : length (slice text a b) = b - a).
    { unfold slice. rewrite length_firstn, length_skipn. lia. }
    destruct (slice text a b); [simpl in L; lia|reflexivity]. }
  assert (Hcut : slice text 800 1800 = slice text 800 1200).
  { unfold slice. rewrite !firstn_all2; try reflexivity;
      rewrite length_skipn; lia. }
  change (map (fun k => k * (CHUNK_SIZE - CHUNK_OVERLAP)) (seq 0 2))
    with [0 * (CHUNK_SIZE - CHUNK_OVERLAP); 1 * (CHUNK_SIZE - CHUNK_OVERLAP)].
  replace (0 * (CHUNK_SIZE - CHUNK_OVERLAP)) with 0 by reflexivity.
  replace (1 * (CHUNK_SIZE - CHUNK_OVERLAP)) with 800
    by (unfold CHUNK_SIZE, CHUNK_OVERLAP; lia).
  unfold fold_left, chunk_step.
  replace (0 + CHUNK_SIZE) with 1000 by (unfold CHUNK_SIZE; lia).
  replace (800 + CHUNK_SIZE) with 1800 by (unfold CHUNK_SIZE; lia).
  rewrite !Hsub, Hcut.
  rewrite (Hnz 0 1000) by lia. simpl fst.
  rewrite (Hnz 800 1200) by lia. reflexivity.
Qed.

Lemma chunk_pages_windows_witness :
  chunk_pages [mkPage 1 (repeat 65%N 1200)] =
    [mkChunk 0 1 (repeat 65%N 1000); mkChunk 1 1 (repeat 65%N 400)].
Proof.
  destruct (chunk_pages_windows 1 (repeat 65%N 1200)) as [H _].
  - vm_compute. reflexivity.
  - vm_compute. reflexivity.
  - rewrite H. vm_compute. reflexivity.
Defined.

(** C7: across the whole document the chunk indices are 0, 1, 2, ... in
    emission order (so they are unique, start at zero and go up by one,
    without a reset at a page boundary); and a window that is only
    whitespace leaves the chunks and the index as they are while the window
    start still advances by CHUNK_SIZE - CHUNK_OVERLAP. *)
Theorem chunk_index_monotone (pages : list Page) :
  map chunk_index (chunk_pages pages) = seq 0 (length (chunk_pages pages))
  /\ NoDup (map chunk_index (chunk_pages pages))
  /\ forall (text : str) (pn : Z) (start : nat) (st : ChunkState),
      strip (slice text start (start + CHUNK_SIZE)) = [] ->
      chunk_step text pn start st
      = (st, start + (CHUNK_SIZE - CHUNK_OVERLAP)).
Proof.
  assert (I : indexed (chunk_pages_from pages ([], 0))).
  { apply chunk_pages_from_indexed. reflexivity. }
  assert (S1 : map chunk_index (chunk_pages pages)
               = seq 0 (length (chunk_pages pages))).
  { unfold chunk_pages. rewrite (indexed_length _ I). exact I. }
  split; [exact S1|]. split.
  - rewrite S1. apply seq_NoDup.
  - intros text pn start [chunks idx] H. unfold chunk_step. rewrite H.
    cbn [truthy]. f_equal. pose proof chunk_assert. lia.
Qed.

Lemma chunk_index_monotone_witness :
  map chunk_index
      (chunk_pages [mkPage 1 (lit "ab"); mkPage 2 (lit "  "); mkPage 3 (lit "cd")])
  = [0; 1]
  /\ chunk_step (lit "  ") 2 0 ([], 0) = (([], 0), 800).
Proof.
  destruct (chunk_index_monotone
              [mkPage 1 (lit "ab"); mkPage 2 (lit "  "); mkPage 3 (lit "cd")])
    as (H & _ & W).
  split.
  - rewrite H. vm_compute. reflexivity.
  - rewrite (W (lit "  ") 2%Z 0 ([], 0)); [|vm_compute; reflexivity].
    vm_compute. reflexivity.
Defined.

(** ** Every text with a visible character gives a chunk *)

Lemma lstrip_nil (s : str) : lstrip s = [] <-> forallb isspace s = true.
Proof.
  induction s as [|c s IH]; simpl; [tauto|].
  destruct (isspace c); simpl; [exact IH|]. split; discriminate.
Qed.

Lemma lstrip_spaces (s : str) :
  forallb isspace (lstrip s) = forallb isspace s.
Proof.
  induction s as [|c s IH]; simpl; [reflexivity|].
  destruct (isspace c) eqn:Hc; simpl; [exact IH|]. now rewrite Hc.
Qed.

Lemma forallb_rev {A : Type} (p : A -> bool) (l : list A) :
  forallb p (rev l) = forallb p l.
Proof.
  induction l as [|x l IH]; simpl; [reflexivity|].
  rewrite forallb_app, IH. simpl. rewrite andb_true_r. apply andb_comm.
Qed.

Lemma strip_nil (s : str) : strip s = [] <-> forallb isspace s = true.
Proof.
  unfold strip, rstrip. rewrite <- lstrip_spaces, <- (forallb_rev _ (lstrip s)).
  rewrite <- lstrip_nil. split.
  - intros H. apply (f_equal (@rev char)) in H.
    now rewrite rev_involutive in H.
  - intros H. now rewrite H.
Qed.

Lemma join_spaces (parts : list str) :
  forallb (forallb isspace) parts = true ->
  forallb isspace (join [nl] parts) = true.
Proof.
  induction parts as [|p ps IH]; intros H; [reflexivity|].
  cbn [forallb] in H. apply andb_true_iff in H as [Hp Hps].
  destruct ps as [|q ps]; [exact Hp|].
  change (join [nl] (p :: q :: ps)) with (p ++ [nl] ++ join [nl] (q :: ps)).
  rewrite !forallb_app, Hp, (IH Hps). reflexivity.
Qed.

Lemma chunk_step_grows (text : str) (pn : Z) (start : nat) (st : ChunkState) :
  length (fst st) <= length (fst (fst (chunk_step text pn start st))).
Proof.
  unfold chunk_step. destruct st as [chunks idx].
  destruct (truthy _); cbn [fst]; [rewrite length_app|]; lia.
Qed.

Lemma chunk_while_grows (fuel : nat) (text : str) (pn : Z) :
  forall (start : nat) (st : ChunkState),
    length (fst st) <= length (fst (chunk_while fuel text pn start st)).
Proof.
  induction fuel as [|fuel IH]; intros start st; simpl; [lia|].
  destruct (start <? length text); [|lia].
  pose proof (chunk_step_grows text pn start st) as H.
  destruct (chunk_step text pn start st) as [st' start']. cbn [fst] in H.
  specialize (IH start' st'). lia.
Qed.

Lemma chunk_pages_from_grows (pages : list Page) :
  forall st : ChunkState,
    length (fst st) <= length (fst (chunk_pages_from pages st)).
Proof.
  induction pages as [|p pages IH]; intros st; simpl; [lia|].
  etransitivity; [|apply IH]. apply chunk_while_grows.
Qed.

(** A window that holds a visible character is emitted. *)
Lemma chunk_step_emits (text : str) (pn : Z) (start : nat) (st : ChunkState) :
  forallb isspace (firstn (CHUNK_SIZE - CHUNK_OVERLAP) (skipn start text))
  = false ->
  length (fst (fst (chunk_step text pn start st))) = S (length (fst st)).
Proof.
  intros H. unfold chunk_step. destruct st as [chunks idx].
  assert (Hw : forallb isspace (slice text start (start + CHUNK_SIZE)) = false).
  { unfold slice. replace (start + CHUNK_SIZE - start) with CHUNK_SIZE by lia.
    rewrite <- (firstn_skipn (CHUNK_SIZE - CHUNK_OVERLAP)
                  (firstn CHUNK_SIZE (skipn start text))).
    rewrite forallb_app, firstn_firstn.
    replace (Nat.min (CHUNK_SIZE - CHUNK_OVERLAP) CHUNK_SIZE)
      with (CHUNK_SIZE - CHUNK_OVERLAP) by lia.
    now rewrite H. }
  destruct (strip (slice text start (start + CHUNK_SIZE))) as [|c s] eqn:Hs.
  - apply strip_nil in Hs. congruence.
  - cbn [truthy fst]. rewrite length_app. simpl. lia.
Qed.

Lemma chunk_while_emits (fuel : nat) (text : str) (pn : Z) :
  forall (start : nat) (st : ChunkState),
    length text - start <= fuel ->
    forallb isspace (skipn start text) = false ->
    length (fst st) < length (fst (chunk_while fuel text pn start st)).
Proof.
  induction fuel as [|fuel IH]; intros start st Hf Hv.
  - rewrite skipn_all2 in Hv by lia. discriminate.
  - destruct (Nat.ltb_spec start (length text)) as [Hlt|Hge];
      [|rewrite skipn_all2 in Hv by lia; discriminate].
    rewrite chunk_while_turn by lia.
    pose proof chunk_assert as Hco.
    rewrite (chunk_while_fuel (S fuel) fuel) by lia.
    rewrite <- (firstn_skipn (CHUNK_SIZE - CHUNK_OVERLAP) (skipn start text))
      in Hv.
    rewrite forallb_app, skipn_skipn in Hv.
    replace (CHUNK_SIZE - CHUNK_OVERLAP + start)
      with (start + CHUNK_SIZE - CHUNK_OVERLAP) in Hv by lia.
    destruct (forallb isspace
                (firstn (CHUNK_SIZE - CHUNK_OVERLAP) (skipn start text)))
      eqn:Hw.
    + simpl in Hv.
      pose proof (chunk_step_grows text pn start st).
      pose proof (IH (start + CHUNK_SIZE - CHUNK_OVERLAP)
                     (fst (chunk_step text pn start st)) ltac:(lia) Hv).
      lia.
    + pose proof (chunk_step_emits text pn start st Hw).
      pose proof (chunk_while_grows fuel text pn
                    (start + CHUNK_SIZE - CHUNK_OVERLAP)
                    (fst (chunk_step text pn start st))).
      lia.
Qed.

Lemma chunk_pages_from_emits (pages : list Page) :
  forall st : ChunkState,
    forallb (forallb isspace) (map page_text pages) = false ->
    length (fst st) < length (fst (chunk_pages_from pages st)).
Proof.
  induction pages as [|p pages IH]; intros st H; simpl in *; [discriminate|].
  destruct (forallb isspace (page_text p)) eqn:Hp; simpl in H.
  - eapply Nat.le_lt_trans; [|apply (IH _ H)].
    apply chunk_while_grows.
  - eapply Nat.lt_le_trans; [|apply chunk_pages_from_grows].
    apply chunk_while_emits; [lia|exact Hp].
Qed.

(** Once the joined text has a visible character, chunking gives at least
    one chunk: the second error of the indexer guards a case the first one
    has already caught. *)
Lemma chunk_pages_nonempty (pages : list Page) :
  strip (join [nl] (map page_text pages)) <> [] -> chunk_pages pages <> [].
Proof.
  intros H Hc.
  destruct (forallb (forallb isspace) (map page_text pages)) eqn:Hs.
  - apply H, strip_nil, join_spaces, Hs.
  - pose proof (chunk_pages_from_emits pages ([], 0) Hs) as Hl.
    unfold chunk_pages in Hc. rewrite Hc in Hl. simpl in Hl. lia.
Qed.

(** ** Indexer *)

Section IndexerFacts.
Context {E : Type} (embed : str -> E).

Lemma zip_rows_map (d : str) (chunks : list Chunk) :
  zip_rows (map (chunk_id d) chunks) (map chunk_text chunks)
           (map (chunk_metadata d) chunks)
           (encode embed (map chunk_text chunks))
  = map (fun c => mkRow (chunk_id d c) (chunk_text c) (chunk_metadata d c)
                        (embed (chunk_text c))) chunks.
Proof.
  unfold encode. induction chunks as [|c cs IH]; simpl; [reflexivity|].
  now rewrite IH.
Qed.

Lemma is_doc_chunk_metadata (d : str) (c : Chunk) :
  is_doc d (chunk_metadata d c) = true.
Proof. unfold is_doc. simpl. apply eqb_refl. Qed.

(** The rows of a batch all belong to the document indexed. *)
Lemma purge_batch (d : str) (chunks : list Chunk) :
  filter (fun r : Row E => negb (is_doc d (row_metadata r)))
         (map (fun c => mkRow (chunk_id d c) (chunk_text c)
                              (chunk_metadata d c) (embed (chunk_text c)))
              chunks) = [].
Proof.
  induction chunks as [|c cs IH]; simpl; [reflexivity|].
  now rewrite is_doc_chunk_metadata.
Qed.

Lemma keep_batch (d : str) (chunks : list Chunk) :
  filter (fun r : Row E => is_doc d (row_metadata r))
         (map (fun c => mkRow (chunk_id d c) (chunk_text c)
                              (chunk_metadata d c) (embed (chunk_text c)))
              chunks)
  = map (fun c => mkRow (chunk_id d c) (chunk_text c)
                        (chunk_metadata d c) (embed (chunk_text c))) chunks.
Proof.
  induction chunks as [|c cs IH]; simpl; [reflexivity|].
  rewrite is_doc_chunk_metadata. now rewrite IH.
Qed.

Lemma purge_purged (d : str) (c : Collection E) :
  filter (fun r : Row E => is_doc d (row_metadata r))
         (filter (fun r : Row E => negb (is_doc d (row_metadata r))) c) = [].
Proof.
  induction c as [|r c IH]; simpl; [reflexivity|].
  destruct (is_doc d (row_metadata r)) eqn:Hd; simpl; [exact IH|].
  now rewrite Hd.
Qed.

Lemma filter_idem {A : Type} (p : A -> bool) (l : list A) :
  filter p (filter p l) = filter p l.
Proof.
  induction l as [|x l IH]; simpl; [reflexivity|].
  destruct (p x) eqn:Hp; simpl; [rewrite Hp, IH|]; auto.
Qed.

(** What a run of the indexer does, case by case. *)
Lemma index_doc_cases (d : str) (reader_pages : list (option str))
      (w : World E) :
  let pages := extract_pages_from_pdf reader_pages in
  let chunks := chunk_pages pages in
  let batch := map (fun c => mkRow (chunk_id d c) (chunk_text c)
                                   (chunk_metadata d c)
                                   (embed (chunk_text c))) chunks in
  (strip (join [nl] (map page_text pages)) = []
   /\ index_doc_into_chroma embed d reader_pages w
      = (SummaryError ERR_NO_TEXT, w))
  \/ (strip (join [nl] (map page_text pages)) <> [] /\ chunks = []
      /\ index_doc_into_chroma embed d reader_pages w
         = (SummaryError ERR_NO_CHUNKS, w))
  \/ (strip (join [nl] (map page_text pages)) <> [] /\ chunks <> []
      /\ index_doc_into_chroma embed d reader_pages w
         = (SummaryOk (length pages) (length chunks),
            mkWorld
              (filter (fun r => negb (is_doc d (row_metadata r)))
                      (w_collection w) ++ batch)
              (w_trace w ++ [EvDelete d]
                       ++ [EvAdd (map (chunk_id d) chunks)]))).
Proof.
  intros pages chunks batch. unfold index_doc_into_chroma.
  fold pages. fold chunks.
  destruct (strip (join [nl] (map page_text pages))) as [|c0 s0] eqn:Hs.
  - left. split; reflexivity.
  - right. cbn [truthy negb].
    destruct chunks as [|c cs] eqn:Hc.
    + left. repeat split; congruence.
    + right. repeat split; try congruence.
      unfold bind, collection_delete, collection_add, ret.
      cbn [w_collection w_trace]. rewrite zip_rows_map.
      rewrite <- app_assoc. reflexivity.
Qed.
End IndexerFacts.

(** C6: when the page texts joined are empty or only whitespace, or when
    chunking gives no chunk, [index_doc_into_chroma] returns an error
    summary and the world is the one it started from: the collection is
    the same and the trace has no delete and no add more. *)
Theorem index_failure_untouched {E : Type} (embed : str -> E) (d : str)
        (reader_pages : list (option str)) (w : World E)
        (Hfail :
           strip (join [nl] (map page_text (extract_pages_from_pdf reader_pages)))
           = []
           \/ chunk_pages (extract_pages_from_pdf reader_pages) = []) :
  exists err : str,
    index_doc_into_chroma embed d reader_pages w = (SummaryError err, w)
    /\ (err = ERR_NO_TEXT \/ err = ERR_NO_CHUNKS).
Proof.
  destruct (index_doc_cases embed d reader_pages w)
    as [[_ H]|[(_ & _ & H)|(Hs & Hc & _)]].
  - exists ERR_NO_TEXT. auto.
  - exists ERR_NO_CHUNKS. auto.
  - destruct Hfail as [Hf|Hf]; contradiction.
Qed.

Lemma index_failure_untouched_witness :
  exists err : str,
    index_doc_into_chroma (fun _ => tt) (lit "doc") [Some (lit "  "); None]
      (mkWorld [mkRow (lit "doc:0") (lit "old")
                      (mkMeta (Some (lit "doc")) (Some 1%Z) (Some 0%Z)) tt] [])
    = (SummaryError err,
       mkWorld [mkRow (lit "doc:0") (lit "old")
                      (mkMeta (Some (lit "doc")) (Some 1%Z) (Some 0%Z)) tt] [])
    /\ (err = ERR_NO_TEXT \/ err = ERR_NO_CHUNKS).
Proof.
  apply (index_failure_untouched (fun _ => tt) (lit "doc")
           [Some (lit "  "); None]).
  left. vm_compute. reflexivity.
Defined.

(** C8: indexing a document a second time with the same pages leaves the
    collection as the first indexing left it: the same rows, hence the same
    ids and the same number of rows for the document, which on success are
    the ids of the chunks, one row per chunk. *)
Theorem reindex_idempotent {E : Type} (embed : str -> E) (d : str)
        (reader_pages : list (option str)) (w : World E) :
  let once := index_doc_into_chroma embed d reader_pages w in
  let twice := index_doc_into_chroma embed d reader_pages (snd once) in
  w_collection (snd twice) = w_collection (snd once)
  /\ doc_ids d (w_collection (snd twice)) = doc_ids d (w_collection (snd once))
  /\ fst twice = fst once
  /\ forall pages chunks : nat,
      fst once = SummaryOk pages chunks ->
      doc_ids d (w_collection (snd twice))
      = map (chunk_id d) (chunk_pages (extract_pages_from_pdf reader_pages))
      /\ length (doc_ids d (w_collection (snd twice))) = chunks.
Proof.
  intros once twice.
  destruct (index_doc_cases embed d reader_pages w)
    as [[_ H]|[(_ & _ & H)|(Hs & Hc & H)]].
  - subst twice. subst once. rewrite H. cbn [snd]. rewrite H. cbn [fst snd].
    repeat split; auto; discriminate.
  - subst twice. subst once. rewrite H. cbn [snd]. rewrite H. cbn [fst snd].
    repeat split; auto; discriminate.
  - subst twice. subst once. rewrite H. cbn [snd fst].
    destruct (index_doc_cases embed d reader_pages
                (mkWorld
                   (filter (fun r => negb (is_doc d (row_metadata r)))
                           (w_collection w) ++
                    map (fun c => mkRow (chunk_id d c) (chunk_text c)
                                        (chunk_metadata d c)
                                        (embed (chunk_text c)))
                        (chunk_pages (extract_pages_from_pdf reader_pages)))
                   (w_trace w ++ [EvDelete d] ++
                    [EvAdd (map (chunk_id d)
                       (chunk_pages (extract_pages_from_pdf reader_pages)))])))
      as [[H1 _]|[(_ & H1 & _)|(_ & _ & H2)]]; try contradiction.
    rewrite H2. cbn [fst snd w_collection].
    rewrite filter_app, filter_idem, purge_batch, app_nil_r.
    split; [reflexivity|]. split; [reflexivity|]. split; [reflexivity|].
    intros pages chunks Hok. inversion Hok; subst. unfold doc_ids.
    rewrite filter_app, purge_purged, keep_batch. cbn [app].
    rewrite map_map. cbn [row_id]. split; [reflexivity|].
    apply length_map.
Qed.

Lemma reindex_idempotent_witness :
  doc_ids (lit "doc")
    (w_collection
       (snd (index_doc_into_chroma (fun _ => tt) (lit "doc") [Some (lit "hello")]
          (snd (index_doc_into_chroma (fun _ => tt) (lit "doc")
                  [Some (lit "hello")] (mkWorld [] []))))))
  = [lit "doc:0"].
Proof.
  destruct (reindex_idempotent (fun _ => tt) (lit "doc") [Some (lit "hello")]
              (mkWorld [] [])) as (_ & _ & _ & H).
  destruct (H 1 1) as [H1 _]; [vm_compute; reflexivity|].
  rewrite H1. vm_compute. reflexivity.
Defined.

(** ** Retriever *)

Lemma key_eqb_eq (a b : Key) : key_eqb a b = true <-> a = b.
Proof. unfold key_eqb. destruct (key_eq_dec a b); split; congruence. Qed.

Lemma key_eqb_refl (a : Key) : key_eqb a a = true.
Proof. now apply key_eqb_eq. Qed.

Lemma key_in_spec (k : Key) (seen : list Key) :
  key_in k seen = true <-> In k seen.
Proof.
  unfold key_in. rewrite existsb_exists. split.
  - intros (x & Hx & He). apply key_eqb_eq in He. now subst.
  - intros H. exists k. split; [exact H|apply key_eqb_refl].
Qed.

Lemma dedupe_from_unseen (rs : list Retrieved) :
  forall (seen : list Key) (r : Retrieved),
    In r (dedupe_from seen rs) -> ~ In (key_of r) seen.
Proof.
  induction rs as [|r0 rs IH]; intros seen r H; simpl in H; [contradiction|].
  destruct (key_in (key_of r0) seen) eqn:Hk.
  - now apply IH.
  - destruct H as [->|H].
    + intros Hin. apply key_in_spec in Hin. congruence.
    + intros Hin. apply (IH _ _ H). now right.
Qed.

Lemma dedupe_from_NoDup (rs : list Retrieved) :
  forall seen : list Key, NoDup (map key_of (dedupe_from seen rs)).
Proof.
  induction rs as [|r0 rs IH]; intros seen; simpl; [constructor|].
  destruct (key_in (key_of r0) seen); [apply IH|].
  simpl. constructor; [|apply IH].
  intros Hin. apply in_map_iff in Hin as (r & Hr & Hin).
  apply dedupe_from_unseen in Hin. apply Hin. left. now symmetry.
Qed.

(** An entry the dedupe loop keeps is the first one with its key. *)
Lemma dedupe_from_first (rs : list Retrieved) :
  forall (seen : list Key) (r : Retrieved),
    In r (dedupe_from seen rs) ->
    find (fun x => key_eqb (key_of x) (key_of r)) rs = Some r.
Proof.
  induction rs as [|r0 rs IH]; intros seen r H; simpl in H; [contradiction|].
  simpl. destruct (key_in (key_of r0) seen) eqn:Hk.
  - destruct (key_eqb (key_of r0) (key_of r)) eqn:He.
    + apply key_eqb_eq in He. apply key_in_spec in Hk.
      apply dedupe_from_unseen in H. rewrite He in Hk. contradiction.
    + now apply (IH seen).
  - destruct H as [->|H]; [now rewrite key_eqb_refl|].
    destruct (key_eqb (key_of r0) (key_of r)) eqn:He.
    + apply key_eqb_eq in He. apply dedupe_from_unseen in H.
      exfalso. apply H. now left.
    + now apply (IH (key_of r0 :: seen)).
Qed.

Lemma StronglySorted_in {A : Type} (R R' : A -> A -> Prop) (l : list A) :
  (forall a b, In a l -> In b l -> R a b -> R' a b) ->
  StronglySorted R l -> StronglySorted R' l.
Proof.
  intros HR H. induction H as [|a l Hs IH Hf]; constructor.
  - apply IH. intros x y Hx Hy. apply HR; now right.
  - rewrite Forall_forall in *. intros x Hx. apply HR; simpl; auto.
Qed.

(** The entries kept come in the order of their first occurrences. *)
Lemma dedupe_from_order (rs : list Retrieved) :
  forall seen : list Key,
    StronglySorted
      (fun a b => first_index (key_of a) rs < first_index (key_of b) rs)
      (dedupe_from seen rs).
Proof.
  induction rs as [|r0 rs IH]; intros seen; simpl; [constructor|].
  destruct (key_in (key_of r0) seen) eqn:Hk.
  - apply StronglySorted_in with (2 := IH seen).
    intros a b Ha Hb Hab.
    apply dedupe_from_unseen in Ha, Hb. apply key_in_spec in Hk.
    destruct (key_eqb (key_of r0) (key_of a)) eqn:Ea;
      [apply key_eqb_eq in Ea; congruence|].
    destruct (key_eqb (key_of r0) (key_of b)) eqn:Eb;
      [apply key_eqb_eq in Eb; congruence|]. lia.
  - constructor.
    + apply StronglySorted_in with (2 := IH (key_of r0 :: seen)).
      intros a b Ha Hb Hab. apply dedupe_from_unseen in Ha, Hb.
      destruct (key_eqb (key_of r0) (key_of a)) eqn:Ea;
        [apply key_eqb_eq in Ea; exfalso; apply Ha; now left|].
      destruct (key_eqb (key_of r0) (key_of b)) eqn:Eb;
        [apply key_eqb_eq in Eb; exfalso; apply Hb; now left|]. lia.
    + apply Forall_forall. intros b Hb. apply dedupe_from_unseen in Hb.
      rewrite key_eqb_refl.
      destruct (key_eqb (key_of r0) (key_of b)) eqn:Eb;
        [apply key_eqb_eq in Eb; exfalso; apply Hb; now left|]. lia.
Qed.

Lemma insert_desc_perm (x : Retrieved) (l : list Retrieved) :
  Permutation (x :: l) (insert_desc x l).
Proof.
  induction l as [|y l IH]; simpl; [reflexivity|].
  destruct (Qle_bool (sim_key y) (sim_key x)); [reflexivity|].
  rewrite perm_swap. now constructor.
Qed.

Lemma sort_desc_perm (l : list Retrieved) : Permutation l (sort_desc l).
Proof.
  induction l as [|x l IH]; simpl; [constructor|].
  rewrite <- insert_desc_perm. now constructor.
Qed.

Lemma ranks_before_le (rs : list Retrieved) (a b : Retrieved) :
  ranks_before rs a b -> (sim_key b <= sim_key a)%Q.
Proof.
  intros [H|[H _]]; [now apply Qlt_le_weak|]. rewrite H. apply Qle_refl.
Qed.

(** Inserting an entry that precedes, in the result order, all the entries
    of a ranked list keeps the list ranked. *)
Lemma insert_desc_ranked (rs : list Retrieved) (x : Retrieved)
      (l : list Retrieved) :
  Forall (fun b => first_index (key_of x) rs < first_index (key_of b) rs) l ->
  StronglySorted (ranks_before rs) l ->
  StronglySorted (ranks_before rs) (insert_desc x l).
Proof.
  intros Hx Hl. induction Hl as [|y l Hs IH Hy]; simpl.
  - repeat constructor.
  - inversion Hx as [|? ? Hxy Hxl]; subst.
    destruct (Qle_bool (sim_key y) (sim_key x)) eqn:Hle.
    + apply Qle_bool_iff in Hle. constructor; [now constructor|].
      assert (Hy0 : ranks_before rs x y).
      { destruct (Qle_lt_or_eq _ _ Hle) as [Hlt|Heq]; [now left|].
        right. now split. }
      constructor; [exact Hy0|].
      rewrite Forall_forall in *. intros z Hz.
      pose proof (ranks_before_le _ _ _ (Hy z Hz)) as Hzy.
      destruct (Qle_lt_or_eq _ _ (Qle_trans _ _ _ Hzy Hle)) as [Hlt|Heq];
        [now left|]. right. split; [exact Heq|]. now apply Hxl.
    + constructor; [now apply IH|].
      assert (Hlt : (sim_key x < sim_key y)%Q).
      { apply Qnot_le_lt. intros H. apply Qle_bool_iff in H. congruence. }
      apply (Permutation_Forall (insert_desc_perm x l)).
      constructor; [now left|exact Hy].
Qed.

Lemma sort_desc_ranked (rs l : list Retrieved) :
  StronglySorted
    (fun a b => first_index (key_of a) rs < first_index (key_of b) rs) l ->
  StronglySorted (ranks_before rs) (sort_desc l).
Proof.
  intros H. induction H as [|x l Hs IH Hx]; simpl; [constructor|].
  apply insert_desc_ranked; [|exact IH].
  now apply (Permutation_Forall (sort_desc_perm l)).
Qed.

Lemma StronglySorted_firstn {A : Type} (R : A -> A -> Prop) (n : nat) :
  forall l : list A, StronglySorted R l -> StronglySorted R (firstn n l).
Proof.
  induction n as [|n IH]; intros l H; simpl; [constructor|].
  destruct H as [|x l Hs Hx]; constructor; [now apply IH|].
  rewrite Forall_forall in *. intros y Hy. apply Hx.
  rewrite <- (firstn_skipn n l). apply in_or_app. now left.
Qed.

Lemma NoDup_firstn {A : Type} (n : nat) :
  forall l : list A, NoDup l -> NoDup (firstn n l).
Proof.
  induction n as [|n IH]; intros l H; simpl; [constructor|].
  destruct H as [|x l Hx Hl]; constructor; [|now apply IH].
  intros Hin. apply Hx. rewrite <- (firstn_skipn n l).
  apply in_or_app. now left.
Qed.

Lemma In_firstn {A : Type} (n : nat) (l : list A) (x : A) :
  In x (firstn n l) -> In x l.
Proof.
  intros H. rewrite <- (firstn_skipn n l). apply in_or_app. now left.
Qed.

Section RetrieverFacts.
Context {E : Type} (embed : str -> E).
Context (query : Collection E -> list E -> Z -> str -> QueryResult).

Lemma retrieve_top_k_eq (c : Collection E) (doc_id question : str)
      (top_k : Z) :
  retrieve_top_k embed query c doc_id question top_k
  = slice_to
      (sort_desc (dedupe (retrieved_of embed query c doc_id question top_k)))
      top_k.
Proof. reflexivity. Qed.

Lemma slice_to_firstn {A : Type} (l : list A) (n : Z) :
  exists m : nat, slice_to l n = firstn m l.
Proof. unfold slice_to. destruct (0 <=? n)%Z; eauto. Qed.
End RetrieverFacts.

(** C1: for every doc_id, question and top_k, the list [retrieve_top_k]
    makes has no two entries with the same (page, chunk_index), each entry
    being the first one with its key in the index's result order; the sort
    keys (the similarity, a missing one counting as 0.0) never increase
    along the list, the key of an entry that has a similarity being that
    similarity; of two entries with equal keys the one the index listed
    first comes first; and whenever the call returns, which it does not
    when the query rejects the number of results asked, the list returned
    is that list and has at most top_k entries. *)
Theorem retrieve_top_k_ranked {E : Type} (embed : str -> E)
        (query : Collection E -> list E -> Z -> str -> QueryResult)
        (c : Collection E) (doc_id question : str) (top_k : Z) :
  let retrieved := retrieved_of embed query c doc_id question top_k in
  let out := retrieve_top_k embed query c doc_id question top_k in
  NoDup (map key_of out)
  /\ (forall r, In r out ->
        find (fun x => key_eqb (key_of x) (key_of r)) retrieved = Some r)
  /\ StronglySorted (fun a b => (sim_key b <= sim_key a)%Q) out
  /\ (forall r s, r_similarity r = Some s -> (sim_key r == s)%Q)
  /\ StronglySorted (ranks_before retrieved) out
  /\ (forall l,
        retrieve_top_k_call embed query c doc_id question top_k = Returns l ->
        l = out /\ (Z.of_nat (length l) <= top_k)%Z).
Proof.
  intros retrieved out.
  assert (Hkey : forall r s, r_similarity r = Some s -> (sim_key r == s)%Q).
  { intros r s Hs. unfold sim_key. rewrite Hs.
    destruct (Qeq_bool s 0) eqn:Hz; [|reflexivity].
    apply Qeq_bool_iff in Hz. now symmetry. }
  assert (Hlen : forall l,
             retrieve_top_k_call embed query c doc_id question top_k
             = Returns l ->
             l = out /\ (Z.of_nat (length l) <= top_k)%Z).
  { intros l Hcall. unfold retrieve_top_k_call, query_rejects in Hcall.
    destruct (Z.leb_spec (Z.max (top_k * 3) top_k) 0) as [Hle|Hgt];
      [discriminate|].
    injection Hcall as <-. split; [reflexivity|].
    subst out. rewrite retrieve_top_k_eq. apply slice_to_length. lia. }
  assert (R : StronglySorted (ranks_before retrieved)
                             (sort_desc (dedupe retrieved))).
  { apply sort_desc_ranked. apply dedupe_from_order. }
  split; [|split; [|split; [|split; [exact Hkey|split; [|exact Hlen]]]]];
    clear Hlen Hkey; subst out; rewrite retrieve_top_k_eq; fold retrieved;
    destruct (slice_to_firstn (sort_desc (dedupe retrieved)) top_k)
      as [m ->].
  - rewrite <- firstn_map. apply NoDup_firstn.
    apply (Permutation_NoDup
             (Permutation_map key_of (sort_desc_perm (dedupe retrieved)))).
    apply dedupe_from_NoDup.
  - intros r Hr. apply In_firstn in Hr.
    apply (Permutation_in _ (Permutation_sym (sort_desc_perm _))) in Hr.
    now apply (dedupe_from_first retrieved []).
  - apply StronglySorted_firstn.
    apply StronglySorted_in with (2 := R).
    intros a b _ _. apply ranks_before_le.
  - now apply StronglySorted_firstn.
Qed.

Lemma retrieve_top_k_ranked_witness :
  map r_text
      (retrieve_top_k (fun _ => tt) sample_query [] (lit "doc") (lit "q") 2)
  = [lit "beta"; lit "gamma"]
  /\ (Z.of_nat (length (retrieve_top_k (fun _ => tt) sample_query []
                                       (lit "doc") (lit "q") 2)) <= 2)%Z.
Proof.
  destruct (retrieve_top_k_ranked (fun _ => tt) sample_query [] (lit "doc")
              (lit "q") 2) as (_ & _ & _ & _ & _ & H).
  destruct (H (retrieve_top_k (fun _ => tt) sample_query [] (lit "doc")
                              (lit "q") 2)) as [_ Hl];
    [vm_compute; reflexivity|].
  split; [vm_compute; reflexivity|exact Hl].
Defined.

(** ** Excerpts *)

Lemma app_ellipsis_length (s : str) :
  length (s ++ [ellipsis]) = S (length s).
Proof. rewrite length_app. simpl. lia. Qed.

(** C3 (amended): for a max_chars that is not negative, the excerpt has at
    most max_chars + 41 characters: the sentence cut is looked for in a
    window of max_chars + 40 characters and one ellipsis is appended; when
    the excerpt is not cut at a sentence end it has at most max_chars + 1
    characters. *)
Theorem trim_excerpt_bound (text : str) (max_chars : Z)
        (Hm : (0 <= max_chars)%Z) :
  (Z.of_nat (length (trim_excerpt text max_chars)) <= max_chars + 41)%Z
  /\ (trim_branch text max_chars <> BrSentence ->
      (Z.of_nat (length (trim_excerpt text max_chars)) <= max_chars + 1)%Z).
Proof.
  unfold trim_excerpt, trim_branch.
  destruct (negb (truthy text)); [simpl; split; intros; lia|].
  destruct (Z.leb_spec (Z.of_nat (length (collapse text))) max_chars)
    as [Hle|Hgt]; [split; intros; lia|].
  set (t := collapse text) in *.
  set (snippet := slice_to t (max_chars + 40)).
  pose proof (slice_to_length t max_chars Hm) as Ht.
  pose proof (slice_to_length t (max_chars + 40) ltac:(lia)) as Hs.
  fold snippet in Hs.
  pose proof (rstrip_length (slice_to t max_chars)) as R1.
  pose proof (rstrip_length (slice_to snippet (rfind dot snippet + 1))) as R2.
  pose proof (slice_to_le snippet (rfind dot snippet + 1)) as R3.
  destruct ((rfind dot snippet =? -1)%Z
            || (rfind dot snippet <? int_mul_06 max_chars)%Z);
    rewrite app_ellipsis_length; split; intros; try congruence; lia.
Qed.

Lemma trim_excerpt_bound_witness :
  (Z.of_nat (length (trim_excerpt
                       (repeat 97%N 299 ++ [dot] ++ repeat 98%N 100) 260))
   <= 260 + 41)%Z.
Proof.
  apply (trim_excerpt_bound (repeat 97%N 299 ++ [dot] ++ repeat 98%N 100) 260).
  lia.
Defined.

(** C3, as stated, fails where the excerpt is cut at a sentence end: a text
    of 299 letters, a period and 100 more letters gives, for max_chars =
    260, an excerpt of 301 characters. *)
Lemma trim_excerpt_exceeds :
  let text := repeat 97%N 299 ++ [dot] ++ repeat 98%N 100 in
  trim_branch text 260 = BrSentence
  /\ length (trim_excerpt text 260) = 301
  /\ ~ (Z.of_nat (length (trim_excerpt text 260)) <= 260 + 5)%Z.
Proof.
  split; [vm_compute; reflexivity|].
  split; [vm_compute; reflexivity|].
  intros H. apply Z.leb_le in H. vm_compute in H. discriminate.
Qed.

(** C9: when the collapsed form of the text has at most max_chars
    characters, the excerpt is that collapsed form, with nothing appended. *)
Theorem trim_excerpt_short (text : str) (max_chars : Z)
        (Hshort : (Z.of_nat (length (collapse text)) <= max_chars)%Z) :
  trim_excerpt text max_chars = collapse text.
Proof.
  unfold trim_excerpt. destruct text as [|c text]; [reflexivity|].
  cbn [truthy negb].
  destruct (Z.leb_spec (Z.of_nat (length (collapse (c :: text)))) max_chars);
    [reflexivity|lia].
Qed.

Lemma trim_excerpt_short_witness :
  trim_excerpt ([bullet] ++ lit " one" ++ [nl; 9%N] ++ lit "two  ") 260
  = lit "one two".
Proof.
  rewrite (trim_excerpt_short ([bullet] ++ lit " one" ++ [nl; 9%N]
                                        ++ lit "two  ") 260).
  - vm_compute. reflexivity.
  - vm_compute. discriminate.
Defined.

(** ** Answer post-processing *)

(** C4 (amended): for the model output "Item1 - Item2 - Item3" the answer
    is "Item1", "- Item2", "- Item3" on three lines; the second and the
    third start with "- ", the first is the bare "Item1". *)
Theorem clean_answer_items :
  clean_answer (lit "Item1 - Item2 - Item3")
  = lit "Item1" ++ [nl] ++ lit "- Item2" ++ [nl] ++ lit "- Item3"
  /\ lines (clean_answer (lit "Item1 - Item2 - Item3"))
     = [lit "Item1"; lit "- Item2"; lit "- Item3"]
  /\ map (startswith (lit "- "))
         (lines (clean_answer (lit "Item1 - Item2 - Item3")))
     = [false; true; true].
Proof. repeat split; vm_compute; reflexivity. Qed.

(** C4, as stated, fails: the first of the three lines does not start with
    "- ". *)
Lemma clean_answer_first_line :
  ~ (length (lines (clean_answer (lit "Item1 - Item2 - Item3"))) = 3
     /\ forallb (startswith (lit "- "))
                (lines (clean_answer (lit "Item1 - Item2 - Item3"))) = true).
Proof. intros [_ H]. vm_compute in H. discriminate. Qed.

(** ** The [/ask] route *)

(** C5: when retrieval returns the empty list, [ask] answers with the fixed
    sentence, no sources and no evidence, and leaves the world as it was:
    the trace has no language-model call more. *)
Theorem ask_no_evidence {E : Type} (embed : str -> E)
        (query : Collection E -> list E -> Z -> str -> QueryResult)
        (llm : str -> str + str) (payload : AskRequest) (w : World E)
        (Hempty : retrieve_top_k embed query (w_collection w) (doc_id payload)
                                 (question payload) (top_k payload) = []) :
  ask embed query llm payload w
  = (AskOk (mkAskResponse (doc_id payload) (question payload)
              (lit "I don't know based on the provided document.") [] []),
     w)
  /\ llm_calls (w_trace (snd (ask embed query llm payload w)))
     = llm_calls (w_trace w).
Proof.
  assert (H : ask embed query llm payload w
              = (AskOk (mkAskResponse (doc_id payload) (question payload)
                          FALLBACK [] []), w)).
  { unfold ask, bind, read_collection. rewrite Hempty. reflexivity. }
  split; [exact H|]. now rewrite H.
Qed.

Lemma ask_no_evidence_witness :
  ask (fun _ => tt) empty_query sample_llm
      (mkAskRequest (lit "unknown") (lit "q") 5) (mkWorld [] [])
  = (AskOk (mkAskResponse (lit "unknown") (lit "q")
              (lit "I don't know based on the provided document.") [] []),
     mkWorld [] []).
Proof.
  apply (ask_no_evidence (fun _ => tt) empty_query sample_llm
           (mkAskRequest (lit "unknown") (lit "q") 5) (mkWorld [] [])).
  vm_compute. reflexivity.
Defined.

Lemma llm_calls_snoc (tr : list Event) (prompt : str) :
  llm_calls (tr ++ [EvLLM prompt]) = llm_calls tr ++ [prompt].
Proof.
  induction tr as [|e tr IH]; [reflexivity|].
  destruct e; simpl; now rewrite IH.
Qed.

(** C10: a request body without top_k is served with top_k = 5: the route
    is [ask] on the request with top_k = 5, the retrieval is called with 5
    and returns at most 5 chunks; when it returns none the language model
    is not called, and otherwise it is called once, with the prompt built
    from exactly these chunks. *)
Theorem ask_default_top_k {E : Type} (embed : str -> E)
        (query : Collection E -> list E -> Z -> str -> QueryResult)
        (llm : str -> str + str) (b : AskBody) (w : World E)
        (Homit : body_top_k b = None) :
  let retrieved :=
    retrieve_top_k embed query (w_collection w) (body_doc_id b)
                   (body_question b) 5 in
  top_k (AskRequest_of_body b) = 5%Z
  /\ ask_route embed query llm b w
     = ask embed query llm
           (mkAskRequest (body_doc_id b) (body_question b) 5) w
  /\ retrieve_top_k_call embed query (w_collection w) (body_doc_id b)
                         (body_question b) (top_k (AskRequest_of_body b))
     = Returns retrieved
  /\ length retrieved <= 5
  /\ (retrieved = [] ->
      llm_calls (w_trace (snd (ask_route embed query llm b w)))
      = llm_calls (w_trace w))
  /\ (retrieved <> [] ->
      llm_calls (w_trace (snd (ask_route embed query llm b w)))
      = llm_calls (w_trace w)
          ++ [build_prompt (body_question b) retrieved]).
Proof.
  intros retrieved.
  assert (Hk : top_k (AskRequest_of_body b) = 5%Z).
  { unfold AskRequest_of_body. now rewrite Homit. }
  assert (Hr : ask_route embed query llm b w
               = ask embed query llm
                     (mkAskRequest (body_doc_id b) (body_question b) 5) w).
  { unfold ask_route, AskRequest_of_body. now rewrite Homit. }
  split; [exact Hk|]. split; [exact Hr|]. split; [now rewrite Hk|]. split.
  - pose proof (retrieve_top_k_eq embed query (w_collection w) (body_doc_id b)
                  (body_question b) 5) as Heq.
    pose proof (slice_to_length
                  (sort_desc (dedupe (retrieved_of embed query (w_collection w)
                     (body_doc_id b) (body_question b) 5))) 5 ltac:(lia)) as Hl.
    rewrite <- Heq in Hl. fold retrieved in Hl. lia.
  - rewrite Hr. unfold ask, bind, read_collection, responses_create.
    cbn [doc_id question top_k]. fold retrieved.
    destruct retrieved as [|r rs] eqn:Hret.
    + split; [reflexivity|]. intros Hne. contradiction.
    + split; [discriminate|]. intros _.
      destruct (llm (build_prompt (body_question b) (r :: rs)));
        cbn [snd ret w_trace]; apply llm_calls_snoc.
Qed.

Lemma ask_default_top_k_witness :
  length (retrieve_top_k (fun _ => tt) numbered_query [] (lit "doc")
                         (lit "q") 5) = 5
  /\ llm_calls
       (w_trace (snd (ask_route (fun _ => tt) numbered_query sample_llm
                                (mkAskBody (lit "doc") (lit "q") None)
                                (mkWorld [] []))))
     = [build_prompt (lit "q")
          (retrieve_top_k (fun _ => tt) numbered_query [] (lit "doc")
                          (lit "q") 5)].
Proof.
  destruct (ask_default_top_k (fun _ => tt) numbered_query sample_llm
              (mkAskBody (lit "doc") (lit "q") None) (mkWorld [] [])
              eq_refl) as (_ & _ & _ & _ & _ & H).
  split; [vm_compute; reflexivity|].
  apply H. vm_compute. discriminate.
Defined.

(** * Further properties *)

(** ** Stripping *)

Lemma lstrip_app (a b : str) :
  lstrip (a ++ b) = if forallb isspace a then lstrip b else lstrip a ++ b.
Proof.
  induction a as [|c a IH]; simpl; [reflexivity|].
  destruct (isspace c); simpl; [exact IH|reflexivity].
Qed.

Lemma rstrip_cons (c : char) (t : str) :
  rstrip (c :: t)
  = if forallb isspace t then (if isspace c then [] else [c])
    else c :: rstrip t.
Proof.
  unfold rstrip. simpl rev. rewrite lstrip_app, forallb_rev.
  destruct (forallb isspace t).
  - simpl. now destruct (isspace c).
  - rewrite rev_app_distr. reflexivity.
Qed.

Lemma lstrip_idem (s : str) : lstrip (lstrip s) = lstrip s.
Proof.
  induction s as [|c s IH]; simpl; [reflexivity|].
  destruct (isspace c) eqn:Hc; [exact IH|]. simpl. now rewrite Hc.
Qed.

Lemma rstrip_idem (s : str) : rstrip (rstrip s) = rstrip s.
Proof. unfold rstrip. now rewrite rev_involutive, lstrip_idem. Qed.

Lemma lstrip_rstrip_lstrip (s : str) :
  lstrip (rstrip (lstrip s)) = rstrip (lstrip s).
Proof.
  induction s as [|c s IH]; [reflexivity|]. simpl.
  destruct (isspace c) eqn:Hc; [exact IH|].
  rewrite rstrip_cons, Hc. destruct (forallb isspace s); simpl; now rewrite Hc.
Qed.

Lemma strip_idem (s : str) : strip (strip s) = strip s.
Proof.
  unfold strip. rewrite lstrip_rstrip_lstrip. apply rstrip_idem.
Qed.

Lemma strip_length (s : str) : length (strip s) <= length s.
Proof.
  unfold strip. etransitivity; [apply rstrip_length|apply lstrip_length].
Qed.

Lemma slice_length {A : Type} (l : list A) (a b : nat) :
  length (slice l a b) <= b - a.
Proof. unfold slice. rewrite length_firstn. lia. Qed.

(** ** Chunker: what a chunk is *)

Lemma step_succ (k : nat) :
  k * (CHUNK_SIZE - CHUNK_OVERLAP) + CHUNK_SIZE - CHUNK_OVERLAP
  = S k * (CHUNK_SIZE - CHUNK_OVERLAP).
Proof.
  pose proof chunk_assert. rewrite Nat.mul_succ_l.
  remember (CHUNK_SIZE - CHUNK_OVERLAP) as step eqn:Hs.
  assert (step + CHUNK_OVERLAP = CHUNK_SIZE) by lia.
  generalize (k * step). intros n. lia.
Qed.

(** Whatever holds of every non-empty stripped window of a page holds of
    the chunks the loop of that page adds. *)
Lemma chunk_while_Forall (P : Chunk -> Prop) (text : str) (pn : Z) :
  (forall k idx,
      k * (CHUNK_SIZE - CHUNK_OVERLAP) < length text ->
      strip (window text k) <> [] ->
      P (mkChunk idx pn (strip (window text k)))) ->
  forall (fuel k : nat) (st : ChunkState),
    Forall P (fst st) ->
    Forall P (fst (chunk_while fuel text pn
                               (k * (CHUNK_SIZE - CHUNK_OVERLAP)) st)).
Proof.
  intros HP. induction fuel as [|fuel IH]; intros k st Hst; [exact Hst|].
  cbn [chunk_while].
  destruct (Nat.ltb_spec (k * (CHUNK_SIZE - CHUNK_OVERLAP)) (length text))
    as [Hlt|Hge]; [|exact Hst].
  unfold chunk_step. destruct st as [chunks idx]. rewrite step_succ.
  fold (window text k). apply IH.
  destruct (strip (window text k)) as [|c s] eqn:Hs; cbn [truthy fst];
    [exact Hst|].
  apply Forall_app. split; [exact Hst|]. constructor; [|constructor].
  rewrite <- Hs. apply HP; [exact Hlt|congruence].
Qed.

Lemma chunk_pages_Forall (P : Chunk -> Prop) (all : list Page) :
  (forall p k idx,
      In p all ->
      k * (CHUNK_SIZE - CHUNK_OVERLAP) < length (page_text p) ->
      strip (window (page_text p) k) <> [] ->
      P (mkChunk idx (page_number p) (strip (window (page_text p) k)))) ->
  Forall P (chunk_pages all).
Proof.
  intros HP. unfold chunk_pages.
  assert (G : forall pages st, incl pages all -> Forall P (fst st) ->
                               Forall P (fst (chunk_pages_from pages st))).
  { induction pages as [|p pages IH]; intros st Hin Hst; [exact Hst|].
    simpl. apply IH; [intros x Hx; apply Hin; now right|].
    unfold chunk_page_loop.
    apply (chunk_while_Forall P (page_text p) (page_number p)) with (k := 0);
      [|exact Hst].
    intros k idx. apply HP. apply Hin. now left. }
  apply G; [apply incl_refl|constructor].
Qed.

(** X1: the text of every chunk is not empty, has no whitespace at either
    end, and is at most CHUNK_SIZE characters long. *)
Theorem chunk_text_trimmed (pages : list Page) (c : Chunk)
        (Hc : In c (chunk_pages pages)) :
  chunk_text c <> []
  /\ strip (chunk_text c) = chunk_text c
  /\ length (chunk_text c) <= CHUNK_SIZE.
Proof.
  revert c Hc. apply Forall_forall. apply chunk_pages_Forall.
  intros p k idx _ _ Hne. cbn [chunk_text]. split; [exact Hne|].
  split; [apply strip_idem|].
  etransitivity; [apply strip_length|].
  etransitivity; [apply slice_length|]. lia.
Qed.

Lemma chunk_text_trimmed_witness :
  chunk_text (mkChunk 0 1 (lit "ab")) <> []
  /\ strip (chunk_text (mkChunk 0 1 (lit "ab"))) = chunk_text (mkChunk 0 1 (lit "ab"))
  /\ length (chunk_text (mkChunk 0 1 (lit "ab"))) <= CHUNK_SIZE.
Proof.
  apply (chunk_text_trimmed [mkPage 1 (lit "  ab ")]).
  vm_compute. left. reflexivity.
Defined.

(** X2: every chunk is cut from one page: it carries the number of a page
    of the document and its text is the stripped window of that page's text
    that starts at a multiple of CHUNK_SIZE - CHUNK_OVERLAP inside the
    text. *)
Theorem chunk_from_one_page (pages : list Page) (c : Chunk)
        (Hc : In c (chunk_pages pages)) :
  exists (p : Page) (k : nat),
    In p pages
    /\ chunk_page c = page_number p
    /\ k * (CHUNK_SIZE - CHUNK_OVERLAP) < length (page_text p)
    /\ chunk_text c = strip (window (page_text p) k).
Proof.
  revert c Hc. apply Forall_forall. apply chunk_pages_Forall.
  intros p k idx Hp Hk _. exists p, k. auto.
Qed.

Lemma chunk_from_one_page_witness :
  exists (p : Page) (k : nat),
    In p [mkPage 7 (lit "  ab ")]
    /\ chunk_page (mkChunk 0 7 (lit "ab")) = page_number p
    /\ k * (CHUNK_SIZE - CHUNK_OVERLAP) < length (page_text p)
    /\ chunk_text (mkChunk 0 7 (lit "ab")) = strip (window (page_text p) k).
Proof.
  apply (chunk_from_one_page [mkPage 7 (lit "  ab ")]).
  vm_compute. left. reflexivity.
Defined.

(** ** Chunker: pages are chunked one after the other *)

Lemma shift_index_0 (c : Chunk) : shift_index 0 c = c.
Proof. now destruct c. Qed.

Lemma shift_index_add (n m : nat) (c : Chunk) :
  shift_index n (shift_index m c) = shift_index (n + m) c.
Proof. unfold shift_index. simpl. f_equal. lia. Qed.

(** A loop started from a state is the loop started from the empty state,
    appended with the indices moved up. *)
Lemma chunk_while_shift (fuel : nat) (text : str) (pn : Z) :
  forall (start : nat) (chunks : list Chunk) (idx : nat),
    chunk_while fuel text pn start (chunks, idx)
    = (chunks ++ map (shift_index idx)
                     (fst (chunk_while fuel text pn start ([], 0))),
       idx + snd (chunk_while fuel text pn start ([], 0))).
Proof.
  induction fuel as [|fuel IH]; intros start chunks idx.
  - simpl. now rewrite app_nil_r, Nat.add_0_r.
  - cbn [chunk_while]. destruct (start <? length text);
      [|simpl; now rewrite app_nil_r, Nat.add_0_r].
    unfold chunk_step.
    destruct (strip (slice text start (start + CHUNK_SIZE))) as [|c s];
      cbn [truthy]; [apply IH|].
    rewrite (IH _ (chunks ++ _) (S idx)), (IH _ ([] ++ _) 1).
    cbn [fst snd app]. rewrite <- app_assoc. f_equal; [|lia].
    f_equal. cbn [map app]. unfold shift_index at 2. cbn [chunk_index
      chunk_page chunk_text]. rewrite Nat.add_0_r. f_equal.
    rewrite map_map. apply map_ext. intros x. rewrite shift_index_add.
    f_equal. lia.
Qed.

Lemma chunk_pages_from_cons (p : Page) (pages : list Page) (st : ChunkState) :
  chunk_pages_from (p :: pages) st
  = chunk_pages_from pages (chunk_page_loop p st).
Proof. reflexivity. Qed.

Lemma chunk_pages_from_shift (pages : list Page) :
  forall (chunks : list Chunk) (idx : nat),
    chunk_pages_from pages (chunks, idx)
    = (chunks ++ map (shift_index idx) (fst (chunk_pages_from pages ([], 0))),
       idx + snd (chunk_pages_from pages ([], 0))).
Proof.
  induction pages as [|p pages IH]; intros chunks idx.
  - simpl. now rewrite app_nil_r, Nat.add_0_r.
  - rewrite !chunk_pages_from_cons. unfold chunk_page_loop.
    rewrite (chunk_while_shift _ _ _ 0 chunks idx).
    destruct (chunk_while (length (page_text p)) (page_text p)
                          (page_number p) 0 ([], 0)) as [c1 i1].
    cbn [fst snd]. rewrite (IH (chunks ++ _) (idx + i1)), (IH c1 i1).
    cbn [fst snd]. rewrite <- app_assoc, map_app, map_map. f_equal; [|lia].
    f_equal. f_equal. apply map_ext. intros x. now rewrite shift_index_add.
Qed.

(** X3: chunking a document in two parts gives the chunks of the first
    part followed by those of the second, whose indices continue where the
    first part stopped; texts and page numbers do not depend on the pages
    before. *)
Theorem chunk_pages_app (ps1 ps2 : list Page) :
  chunk_pages (ps1 ++ ps2)
  = chunk_pages ps1
      ++ map (shift_index (length (chunk_pages ps1))) (chunk_pages ps2).
Proof.
  unfold chunk_pages, chunk_pages_from. rewrite fold_left_app.
  fold (chunk_pages_from ps1 ([], 0)).
  fold (chunk_pages_from ps2 (chunk_pages_from ps1 ([], 0))).
  assert (I : indexed (chunk_pages_from ps1 ([], 0)))
    by (apply chunk_pages_from_indexed; reflexivity).
  rewrite (indexed_length _ I).
  destruct (chunk_pages_from ps1 ([], 0)) as [c1 i1].
  now rewrite chunk_pages_from_shift.
Qed.

(** ** Chunker: blank and short pages *)

Lemma chunk_while_blank (fuel : nat) (text : str) (pn : Z) :
  forallb isspace text = true ->
  forall (start : nat) (st : ChunkState),
    chunk_while fuel text pn start st = st.
Proof.
  intros Hb. induction fuel as [|fuel IH]; intros start st; [reflexivity|].
  cbn [chunk_while]. destruct (start <? length text); [|reflexivity].
  unfold chunk_step. destruct st as [chunks idx].
  assert (Hs : strip (slice text start (start + CHUNK_SIZE)) = []).
  { apply strip_nil. unfold slice. now apply forallb_firstn, forallb_skipn. }
  rewrite Hs. cbn [truthy]. apply IH.
Qed.

Lemma chunk_pages_from_blank (pages : list Page) :
  forallb (forallb isspace) (map page_text pages) = true ->
  forall st : ChunkState, chunk_pages_from pages st = st.
Proof.
  induction pages as [|p pages IH]; intros H st; [reflexivity|].
  simpl in H. apply andb_true_iff in H as [Hp Hps].
  cbn [chunk_pages_from fold_left]. unfold chunk_page_loop.
  rewrite chunk_while_blank by exact Hp. now apply IH.
Qed.

(** X4: chunking gives no chunk exactly when every page text is empty or
    made of whitespace only. *)
Theorem chunk_pages_nil_iff (pages : list Page) :
  chunk_pages pages = []
  <-> forallb (forallb isspace) (map page_text pages) = true.
Proof.
  split.
  - intros Hc.
    destruct (forallb (forallb isspace) (map page_text pages)) eqn:Hs;
      [reflexivity|].
    pose proof (chunk_pages_from_emits pages ([], 0) Hs) as Hl.
    unfold chunk_pages in Hc. rewrite Hc in Hl. simpl in Hl. lia.
  - intros Hs. unfold chunk_pages. now rewrite chunk_pages_from_blank.
Qed.

(** X5: a page whose text has at most CHUNK_SIZE - CHUNK_OVERLAP characters
    gives one chunk, its stripped text with index 0, or no chunk when that
    stripped text is empty. *)
Theorem chunk_short_page (pn : Z) (text : str)
        (Hshort : length text <= CHUNK_SIZE - CHUNK_OVERLAP) :
  chunk_pages [mkPage pn text]
  = if truthy (strip text) then [mkChunk 0 pn (strip text)] else [].
Proof.
  unfold chunk_pages, chunk_pages_from. cbn [fold_left].
  unfold chunk_page_loop. cbn [page_text page_number].
  destruct text as [|c text]; [reflexivity|].
  rewrite chunk_while_turn by (simpl; lia).
  rewrite chunk_while_done by (pose proof chunk_assert; lia).
  unfold chunk_step.
  assert (Hw : slice (c :: text) 0 (0 + CHUNK_SIZE) = c :: text).
  { unfold slice. rewrite Nat.sub_0_r. cbn [skipn].
    apply firstn_all2. cbn [Nat.add]. lia. }
  rewrite Hw. now destruct (truthy (strip (c :: text))).
Qed.

Lemma chunk_short_page_witness :
  chunk_pages [mkPage 3 (lit " hi ")] = [mkChunk 0 3 (lit "hi")].
Proof.
  rewrite (chunk_short_page 3 (lit " hi ")).
  - vm_compute. reflexivity.
  - vm_compute. lia.
Defined.

(** ** Chunker: no visible character is lost *)

Lemma chunk_while_keeps (fuel : nat) (text : str) (pn : Z) (c : Chunk) :
  forall (start : nat) (st : ChunkState),
    In c (fst st) -> In c (fst (chunk_while fuel text pn start st)).
Proof.
  induction fuel as [|fuel IH]; intros start st H; [exact H|].
  cbn [chunk_while]. destruct (start <? length text); [|exact H].
  unfold chunk_step. destruct st as [chunks idx]. apply IH.
  destruct (truthy _); cbn [fst]; [apply in_or_app; now left|exact H].
Qed.

Lemma chunk_pages_from_keeps (pages : list Page) (c : Chunk) :
  forall st : ChunkState,
    In c (fst st) -> In c (fst (chunk_pages_from pages st)).
Proof.
  induction pages as [|p pages IH]; intros st H; [exact H|].
  rewrite chunk_pages_from_cons. apply IH. now apply chunk_while_keeps.
Qed.

Lemma window_visible (text : str) (k i : nat) :
  k * (CHUNK_SIZE - CHUNK_OVERLAP) <= i ->
  i < k * (CHUNK_SIZE - CHUNK_OVERLAP) + CHUNK_SIZE ->
  i < length text ->
  isspace (nth i text space) = false ->
  strip (window text k) <> [].
Proof.
  intros H1 H2 H3 Hv Hs. apply strip_nil in Hs.
  rewrite forallb_forall in Hs.
  set (a := k * (CHUNK_SIZE - CHUNK_OVERLAP)) in *.
  assert (Hn : nth (i - a) (window text k) space = nth i text space).
  { unfold window, slice. fold a. rewrite nth_firstn, nth_skipn.
    destruct (Nat.ltb_spec (i - a) (a + CHUNK_SIZE - a)); [|lia].
    f_equal. lia. }
  assert (Hl : i - a < length (window text k)).
  { unfold window, slice. fold a. rewrite length_firstn, length_skipn. lia. }
  pose proof (Hs _ (nth_In _ space Hl)) as Hsp. congruence.
Qed.

Lemma chunk_while_covers (text : str) (pn : Z) (i : nat) :
  i < length text ->
  isspace (nth i text space) = false ->
  forall (fuel k : nat) (st : ChunkState),
    length text - k * (CHUNK_SIZE - CHUNK_OVERLAP) <= fuel ->
    k * (CHUNK_SIZE - CHUNK_OVERLAP) <= i ->
    exists (c : Chunk) (k' : nat),
      In c (fst (chunk_while fuel text pn
                             (k * (CHUNK_SIZE - CHUNK_OVERLAP)) st))
      /\ chunk_page c = pn
      /\ chunk_text c = strip (window text k')
      /\ k' * (CHUNK_SIZE - CHUNK_OVERLAP) <= i
      /\ i < k' * (CHUNK_SIZE - CHUNK_OVERLAP) + CHUNK_SIZE.
Proof.
  intros Hi Hv. induction fuel as [|fuel IH]; intros k st Hf Hk; [lia|].
  cbn [chunk_while].
  destruct (Nat.ltb_spec (k * (CHUNK_SIZE - CHUNK_OVERLAP)) (length text))
    as [Hlt|Hge]; [|lia].
  unfold chunk_step. destruct st as [chunks idx]. rewrite step_succ.
  fold (window text k).
  destruct (Nat.lt_ge_cases i (k * (CHUNK_SIZE - CHUNK_OVERLAP) + CHUNK_SIZE))
    as [Hin|Hout].
  - pose proof (window_visible text k i Hk Hin Hi Hv) as Hne.
    destruct (strip (window text k)) as [|c0 s0] eqn:Hs; [congruence|].
    cbn [truthy]. exists (mkChunk idx pn (c0 :: s0)), k.
    split; [|now rewrite Hs].
    apply chunk_while_keeps. cbn [fst]. apply in_or_app. right. now left.
  - apply IH.
    + rewrite <- step_succ. pose proof chunk_assert. lia.
    + rewrite <- step_succ. pose proof chunk_assert. lia.
Qed.

(** X6: no visible character is lost: for every page of the document and
    every position of its text that holds a character other than
    whitespace, some chunk of that page is the stripped window that covers
    the position. *)
Theorem chunk_pages_cover (pages : list Page) (p : Page) (i : nat)
        (Hp : In p pages) (Hi : i < length (page_text p))
        (Hv : isspace (nth i (page_text p) space) = false) :
  exists (c : Chunk) (k : nat),
    In c (chunk_pages pages)
    /\ chunk_page c = page_number p
    /\ chunk_text c = strip (window (page_text p) k)
    /\ k * (CHUNK_SIZE - CHUNK_OVERLAP) <= i
    /\ i < k * (CHUNK_SIZE - CHUNK_OVERLAP) + CHUNK_SIZE.
Proof.
  unfold chunk_pages. generalize (@nil Chunk, 0).
  induction pages as [|q pages IH]; intros st; [contradiction|].
  rewrite chunk_pages_from_cons. destruct Hp as [->|Hp].
  - unfold chunk_page_loop.
    destruct (chunk_while_covers (page_text p) (page_number p) i Hi Hv
                (length (page_text p)) 0 st ltac:(lia) ltac:(lia))
      as (c & k & Hc & Hrest).
    exists c, k. split; [|exact Hrest]. now apply chunk_pages_from_keeps.
  - now apply IH.
Qed.

Lemma chunk_pages_cover_witness :
  exists (c : Chunk) (k : nat),
    In c (chunk_pages [mkPage 1 (lit "  "); mkPage 2 (lit " ab")])
    /\ chunk_page c = 2%Z
    /\ chunk_text c = strip (window (lit " ab") k)
    /\ k * (CHUNK_SIZE - CHUNK_OVERLAP) <= 1
    /\ 1 < k * (CHUNK_SIZE - CHUNK_OVERLAP) + CHUNK_SIZE.
Proof.
  apply (chunk_pages_cover [mkPage 1 (lit "  "); mkPage 2 (lit " ab")]
           (mkPage 2 (lit " ab")) 1).
  - right. left. reflexivity.
  - vm_compute. lia.
  - vm_compute. reflexivity.
Defined.

(** ** Page extraction *)

Lemma number_pages_spec (texts : list (option str)) :
  forall i : nat,
    map page_number (number_pages i texts)
    = map (fun j => (Z.of_nat j + 1)%Z) (seq i (length texts))
    /\ map page_text (number_pages i texts)
       = map (fun t => match t with Some s => s | None => [] end) texts.
Proof.
  induction texts as [|t texts IH]; intros i; [split; reflexivity|].
  destruct (IH (S i)) as [H1 H2]. cbn [number_pages map length seq].
  rewrite H1, H2. split; [reflexivity|]. cbn [page_text]. f_equal.
  now destruct t as [[|c s]|].
Qed.

Lemma extract_pages_length (reader_pages : list (option str)) :
  length (extract_pages_from_pdf reader_pages) = length reader_pages.
Proof.
  unfold extract_pages_from_pdf.
  destruct (number_pages_spec reader_pages 0) as [H1 _].
  rewrite <- (length_map page_number), H1, length_map. apply length_seq.
Qed.

(** X7: page extraction yields one page per page of the reader, numbered
    1, 2, ..., n in reader order, and the text of a page is the text the
    reader gave, the empty string when it gave none. *)
Theorem extract_pages_numbering (reader_pages : list (option str)) :
  length (extract_pages_from_pdf reader_pages) = length reader_pages
  /\ map page_number (extract_pages_from_pdf reader_pages)
     = map (fun j => Z.of_nat j) (seq 1 (length reader_pages))
  /\ map page_text (extract_pages_from_pdf reader_pages)
     = map (fun t => match t with Some s => s | None => [] end) reader_pages.
Proof.
  unfold extract_pages_from_pdf.
  destruct (number_pages_spec reader_pages 0) as [H1 H2].
  split; [|split; [|exact H2]].
  - rewrite <- (length_map page_number), H1, length_map. apply length_seq.
  - rewrite H1, <- seq_shift, map_map. apply map_ext. intros j. lia.
Qed.

(** ** Chunk identifiers *)

Lemma lit_inj (a b : string) : lit a = lit b -> a = b.
Proof.
  unfold lit. intros H.
  rewrite <- (string_of_list_ascii_of_string a),
          <- (string_of_list_ascii_of_string b).
  f_equal. revert H.
  generalize (list_ascii_of_string a) (list_ascii_of_string b).
  induction l as [|x l IH]; intros [|y l'] H; simpl in H; try discriminate;
    [reflexivity|].
  injection H as Hx Hl. f_equal; [|now apply IH].
  rewrite <- (ascii_N_embedding x), <- (ascii_N_embedding y). now f_equal.
Qed.

Lemma uint_digits (u : Decimal.uint) :
  forallb isdigit (lit (NilEmpty.string_of_uint u)) = true.
Proof. induction u; simpl; auto. Qed.

Lemma str_of_nat_digits (n : nat) : forallb isdigit (str_of_nat n) = true.
Proof.
  unfold str_of_nat, str_of_Z.
  destruct (Z.of_nat n) as [|p|p] eqn:Hn; [reflexivity| |lia].
  cbn [Z.to_int NilZero.string_of_int]. unfold NilZero.string_of_uint.
  pose proof (DecimalPos.Unsigned.to_uint_nonnil p) as Hp.
  destruct (Pos.to_uint p) eqn:Hu; try congruence; rewrite <- Hu;
    apply uint_digits.
Qed.

Lemma str_of_Z_inj (a b : Z) : str_of_Z a = str_of_Z b -> a = b.
Proof.
  unfold str_of_Z. intros H. apply lit_inj in H.
  assert (N : forall z, Z.to_int z <> Decimal.Pos Decimal.Nil
                        /\ Z.to_int z <> Decimal.Neg Decimal.Nil).
  { intros [|p|p]; simpl; split; try discriminate; intros Hc;
      injection Hc as Hc; now apply DecimalPos.Unsigned.to_uint_nonnil in Hc. }
  destruct (N a) as [A1 A2]. destruct (N b) as [B1 B2].
  pose proof (NilZero.isi _ A1 A2) as Ia.
  pose proof (NilZero.isi _ B1 B2) as Ib.
  rewrite H in Ia. rewrite Ia in Ib. injection Ib as Hab.
  rewrite <- (DecimalZ.of_to a), <- (DecimalZ.of_to b). now f_equal.
Qed.

Lemma str_of_nat_inj (n m : nat) : str_of_nat n = str_of_nat m -> n = m.
Proof. unfold str_of_nat. intros H. apply str_of_Z_inj in H. lia. Qed.

(** Two texts split at the same character, which the left parts do not
    hold, have the same parts. *)
Lemma split_first (x : char) (a a' b b' : str) :
  ~ In x a -> ~ In x a' ->
  a ++ x :: b = a' ++ x :: b' -> a = a' /\ b = b'.
Proof.
  revert a'. induction a as [|c a IH]; intros [|c' a'] Ha Ha' H; simpl in H.
  - injection H as H. auto.
  - injection H as Hc H. exfalso. apply Ha'. left. now symmetry.
  - injection H as Hc H. exfalso. apply Ha. now left.
  - injection H as Hc H. subst c'.
    destruct (IH a') as [E1 E2]; auto.
    + intros Hin. apply Ha. now right.
    + intros Hin. apply Ha'. now right.
    + subst. auto.
Qed.

Lemma digits_no_colon (s : str) :
  forallb isdigit s = true -> ~ In 58%N (rev s).
Proof.
  intros H Hin. apply in_rev in Hin. rewrite forallb_forall in H.
  specialize (H _ Hin). discriminate.
Qed.

Lemma chunk_pages_indices (pages : list Page) :
  map chunk_index (chunk_pages pages) = seq 0 (length (chunk_pages pages)).
Proof.
  assert (I : indexed (chunk_pages_from pages ([], 0)))
    by (apply chunk_pages_from_indexed; reflexivity).
  unfold chunk_pages. rewrite (indexed_length _ I). exact I.
Qed.

(** X8: the identifier of a chunk determines the document and the chunk
    index: two identifiers are equal only for the same doc_id and the same
    index, whatever characters the doc_ids hold; the identifiers of the
    chunks of one document are pairwise distinct. *)
Theorem chunk_id_injective (d d' : str) (c c' : Chunk) (pages : list Page) :
  (chunk_id d c = chunk_id d' c' -> d = d' /\ chunk_index c = chunk_index c')
  /\ NoDup (map (chunk_id d) (chunk_pages pages)).
Proof.
  assert (Inj : forall d d' c c',
             chunk_id d c = chunk_id d' c' ->
             d = d' /\ chunk_index c = chunk_index c').
  { clear. intros d d' c c' H. unfold chunk_id in H.
    apply (f_equal (@rev char)) in H.
    rewrite !rev_app_distr in H. change (rev (lit ":")) with [58%N] in H.
    rewrite <- !app_assoc in H. cbn [app] in H.
    apply split_first in H;
      try (apply digits_no_colon, str_of_nat_digits).
    destruct H as [Hn Hd].
    apply (f_equal (@rev char)) in Hn, Hd. rewrite !rev_involutive in Hn, Hd.
    split; [exact Hd|now apply str_of_nat_inj]. }
  split; [apply Inj|].
  pose proof (chunk_pages_indices pages) as Hnd.
  apply (f_equal (@NoDup nat)) in Hnd.
  assert (Hnd' : NoDup (map chunk_index (chunk_pages pages)))
    by (rewrite Hnd; apply seq_NoDup).
  clear Hnd. revert Hnd'. generalize (chunk_pages pages).
  induction l as [|x l IH]; intros Hnd; simpl; [constructor|].
  inversion Hnd as [|? ? Hx Hl]; subst. constructor; [|now apply IH].
  intros Hin. apply in_map_iff in Hin as (y & Hy & Hin).
  apply Inj in Hy as [_ Hy]. apply Hx. rewrite <- Hy.
  now apply in_map.
Qed.

Lemma chunk_id_injective_witness :
  lit "a" = lit "a" /\ chunk_index (mkChunk 3 1 []) = chunk_index (mkChunk 3 2 []).
Proof.
  apply (chunk_id_injective (lit "a") (lit "a") (mkChunk 3 1 []) (mkChunk 3 2 []) []).
  vm_compute. reflexivity.
Defined.

(** ** Indexer: what a run stores *)

Lemma join_spaces_eq (parts : list str) :
  forallb isspace (join [nl] parts) = forallb (forallb isspace) parts.
Proof.
  induction parts as [|p ps IH]; [reflexivity|].
  destruct ps as [|q ps]; [simpl; now rewrite andb_true_r|].
  change (join [nl] (p :: q :: ps)) with (p ++ [nl] ++ join [nl] (q :: ps)).
  rewrite !forallb_app, IH. reflexivity.
Qed.

Lemma is_doc_other (d d' : str) (m : Metadata) :
  d' <> d -> is_doc d' m = true -> is_doc d m = false.
Proof.
  unfold is_doc. destruct (md_doc_id m) as [x|]; [|discriminate].
  intros Hne H. apply eqb_eq in H. subst x.
  destruct (Py.eqb d' d) eqn:He; [apply eqb_eq in He; contradiction|reflexivity].
Qed.

Lemma filter_other_doc {E : Type} (d d' : str) (c : Collection E) :
  d' <> d ->
  filter (fun r => is_doc d' (row_metadata r))
         (filter (fun r => negb (is_doc d (row_metadata r))) c)
  = filter (fun r => is_doc d' (row_metadata r)) c.
Proof.
  intros Hne. induction c as [|r c IH]; [reflexivity|]. simpl.
  destruct (is_doc d' (row_metadata r)) eqn:H'.
  - rewrite (is_doc_other d d' _ Hne H'). simpl. now rewrite H', IH.
  - destruct (is_doc d (row_metadata r)); simpl; [|rewrite H']; exact IH.
Qed.

Lemma batch_other_doc {E : Type} (embed : str -> E) (d d' : str)
      (chunks : list Chunk) :
  d' <> d ->
  filter (fun r : Row E => is_doc d' (row_metadata r))
         (map (fun c => mkRow (chunk_id d c) (chunk_text c)
                              (chunk_metadata d c) (embed (chunk_text c)))
              chunks) = [].
Proof.
  intros Hne. induction chunks as [|c cs IH]; [reflexivity|]. simpl.
  destruct (is_doc d' (chunk_metadata d c)) eqn:H; [|exact IH].
  apply (is_doc_other d d' _ Hne) in H.
  now rewrite is_doc_chunk_metadata in H.
Qed.

(** X9: indexing a document leaves the rows of every other document as
    they were, in the same order, whether the run succeeds or fails. *)
Theorem index_other_docs_untouched {E : Type} (embed : str -> E)
        (d d' : str) (reader_pages : list (option str)) (w : World E)
        (Hne : d' <> d) :
  filter (fun r => is_doc d' (row_metadata r))
         (w_collection (snd (index_doc_into_chroma embed d reader_pages w)))
  = filter (fun r => is_doc d' (row_metadata r)) (w_collection w).
Proof.
  destruct (index_doc_cases embed d reader_pages w)
    as [[_ H]|[(_ & _ & H)|(_ & _ & H)]]; rewrite H; cbn [snd w_collection];
    try reflexivity.
  rewrite filter_app, filter_other_doc, batch_other_doc by exact Hne.
  apply app_nil_r.
Qed.

Lemma index_other_docs_untouched_witness :
  filter (fun r => is_doc (lit "old") (row_metadata r))
    (w_collection
       (snd (index_doc_into_chroma (fun _ => tt) (lit "new") [Some (lit "text")]
          (mkWorld [mkRow (lit "old:0") (lit "kept")
                          (mkMeta (Some (lit "old")) (Some 1%Z) (Some 0%Z)) tt]
                   []))))
  = [mkRow (lit "old:0") (lit "kept")
           (mkMeta (Some (lit "old")) (Some 1%Z) (Some 0%Z)) tt].
Proof.
  rewrite (index_other_docs_untouched (fun _ => tt) (lit "new") (lit "old")).
  - vm_compute. reflexivity.
  - vm_compute. discriminate.
Defined.

(** X10: indexing succeeds exactly when some page has a character other
    than whitespace, and then reports the number of pages and a chunk count
    that is not zero; otherwise it fails with the no-text error.  The
    no-chunks error is never returned. *)
Theorem index_outcome {E : Type} (embed : str -> E) (d : str)
        (reader_pages : list (option str)) (w : World E) :
  (if forallb (forallb isspace)
              (map page_text (extract_pages_from_pdf reader_pages))
   then index_doc_into_chroma embed d reader_pages w
        = (SummaryError ERR_NO_TEXT, w)
   else exists n : nat,
       fst (index_doc_into_chroma embed d reader_pages w)
       = SummaryOk (length reader_pages) n
       /\ 0 < n
       /\ n = length (chunk_pages (extract_pages_from_pdf reader_pages)))
  /\ fst (index_doc_into_chroma embed d reader_pages w)
     <> SummaryError ERR_NO_CHUNKS.
Proof.
  pose proof (strip_nil (join [nl] (map page_text
                (extract_pages_from_pdf reader_pages)))) as Hs.
  rewrite join_spaces_eq in Hs.
  assert (Hc : chunk_pages (extract_pages_from_pdf reader_pages) = [] ->
               forallb (forallb isspace)
                 (map page_text (extract_pages_from_pdf reader_pages)) = true).
  { intros Hn.
    destruct (forallb (forallb isspace)
                (map page_text (extract_pages_from_pdf reader_pages))) eqn:Hb;
      [reflexivity|].
    pose proof (chunk_pages_from_emits _ ([], 0) Hb) as Hl.
    unfold chunk_pages in Hn. rewrite Hn in Hl. simpl in Hl. lia. }
  destruct (index_doc_cases embed d reader_pages w)
    as [[H0 H]|[(H0 & H1 & H)|(H0 & H1 & H)]]; rewrite H; cbn [fst].
  - apply Hs in H0. rewrite H0. split; [reflexivity|discriminate].
  - exfalso. apply H0, Hs, Hc, H1.
  - destruct (forallb (forallb isspace)
                (map page_text (extract_pages_from_pdf reader_pages)));
      [exfalso; now apply H0, Hs|].
    split; [|discriminate].
    exists (length (chunk_pages (extract_pages_from_pdf reader_pages))).
    split; [|split; [|reflexivity]].
    + f_equal. apply extract_pages_length.
    + destruct (chunk_pages (extract_pages_from_pdf reader_pages));
        [congruence|simpl; lia].
Qed.

(** X11: after a successful run the rows of the document are one per
    chunk, in chunk order, each with the chunk's identifier, text, page,
    index and the embedding of its text; the trace records one delete
    followed by one add of these identifiers. *)
Theorem index_success_rows {E : Type} (embed : str -> E) (d : str)
        (reader_pages : list (option str)) (w : World E) (pages chunks : nat)
        (Hok : fst (index_doc_into_chroma embed d reader_pages w)
               = SummaryOk pages chunks) :
  filter (fun r => is_doc d (row_metadata r))
         (w_collection (snd (index_doc_into_chroma embed d reader_pages w)))
  = map (fun c => mkRow (chunk_id d c) (chunk_text c)
                        (mkMeta (Some d) (Some (chunk_page c))
                                (Some (Z.of_nat (chunk_index c))))
                        (embed (chunk_text c)))
        (chunk_pages (extract_pages_from_pdf reader_pages))
  /\ w_trace (snd (index_doc_into_chroma embed d reader_pages w))
     = w_trace w
         ++ [EvDelete d;
             EvAdd (map (chunk_id d)
                        (chunk_pages (extract_pages_from_pdf reader_pages)))].
Proof.
  destruct (index_doc_cases embed d reader_pages w)
    as [[_ H]|[(_ & _ & H)|(_ & _ & H)]]; rewrite H in *; cbn [fst snd] in *;
    try discriminate.
  cbn [w_collection w_trace]. split; [|reflexivity].
  rewrite filter_app, purge_purged, keep_batch. reflexivity.
Qed.

Lemma index_success_rows_witness :
  w_trace (snd (index_doc_into_chroma (fun _ => tt) (lit "d")
                  [Some (lit "hello")] (mkWorld [] [])))
  = [EvDelete (lit "d"); EvAdd [lit "d:0"]].
Proof.
  destruct (index_success_rows (fun _ => tt) (lit "d") [Some (lit "hello")]
              (mkWorld [] []) 1 1) as [_ H]; [vm_compute; reflexivity|].
  rewrite H. vm_compute. reflexivity.
Defined.

(** ** Retriever: where the entries come from and which are kept *)

Lemma collect_origin (docs : list (option str)) :
  forall (metas : list (option Metadata)) (dists : list (option Q))
         (r : Retrieved),
    In r (collect docs metas dists) ->
    exists (i : nat) (m : option Metadata) (dist : option Q),
      nth_error docs i = Some (Some (r_text r))
      /\ nth_error metas i = Some m
      /\ nth_error dists i = Some dist
      /\ r_text r <> []
      /\ r_page r = meta_page m
      /\ r_chunk_index r = meta_chunk_index m
      /\ r_similarity r = option_map (fun x => (1 - x)%Q) dist.
Proof.
  induction docs as [|d docs IH]; intros metas dists r H; [contradiction|].
  destruct metas as [|m metas]; [contradiction|].
  destruct dists as [|dist dists]; [contradiction|].
  assert (T : In r (collect docs metas dists) ->
              exists i m' dist',
                nth_error (d :: docs) i = Some (Some (r_text r))
                /\ nth_error (m :: metas) i = Some m'
                /\ nth_error (dist :: dists) i = Some dist'
                /\ r_text r <> []
                /\ r_page r = meta_page m'
                /\ r_chunk_index r = meta_chunk_index m'
                /\ r_similarity r = option_map (fun x => (1 - x)%Q) dist').
  { intros Hin. destruct (IH _ _ _ Hin) as (i & m' & dist' & Hrest).
    exists (S i), m', dist'. exact Hrest. }
  cbn [collect] in H. destruct d as [[|c s]|]; try (now apply T).
  destruct H as [<-|H]; [|now apply T].
  exists 0, m, dist. cbn. repeat split; discriminate.
Qed.

(** X12: every entry returned is a row of the index's answer: its text is
    the document of that row and is not empty, its page and chunk index are
    those of the row's metadata (absent when the metadata or the key is),
    and its similarity is 1 minus the row's distance (absent when the
    distance is). *)
Theorem retrieve_top_k_origin {E : Type} (embed : str -> E)
        (query : Collection E -> list E -> Z -> str -> QueryResult)
        (c : Collection E) (doc_id question : str) (top_k : Z)
        (r : Retrieved)
        (Hr : In r (retrieve_top_k embed query c doc_id question top_k)) :
  let res := query c (encode embed [question]) (Z.max (top_k * 3) top_k)
                   doc_id in
  exists (i : nat) (m : option Metadata) (dist : option Q),
    nth_error (first_or_empty (res_documents res)) i = Some (Some (r_text r))
    /\ nth_error (first_or_empty (res_metadatas res)) i = Some m
    /\ nth_error (first_or_empty (res_distances res)) i = Some dist
    /\ r_text r <> []
    /\ r_page r = meta_page m
    /\ r_chunk_index r = meta_chunk_index m
    /\ r_similarity r = option_map (fun x => (1 - x)%Q) dist.
Proof.
  intros res. rewrite retrieve_top_k_eq in Hr.
  destruct (slice_to_firstn
              (sort_desc (dedupe (retrieved_of embed query c doc_id question
                                               top_k))) top_k) as [n Hn].
  rewrite Hn in Hr. apply In_firstn in Hr.
  apply (Permutation_in _ (Permutation_sym (sort_desc_perm _))) in Hr.
  apply (dedupe_from_first _ []) in Hr. apply find_some in Hr as [Hr _].
  now apply collect_origin.
Qed.

Lemma retrieve_top_k_origin_witness :
  exists (i : nat) (m : option Metadata) (dist : option Q),
    nth_error [Some (lit "alpha"); Some (lit "beta"); Some (lit "alpha again");
               Some (lit "gamma"); Some []] i = Some (Some (lit "gamma"))
    /\ nth_error [sample_meta 1 0; sample_meta 1 1; sample_meta 1 0;
                  sample_meta 2 2; sample_meta 3 3] i = Some m
    /\ nth_error [Some (1 # 2)%Q; Some (1 # 4)%Q; Some (1 # 10)%Q;
                  Some (1 # 4)%Q; Some (0 # 1)%Q] i = Some dist
    /\ lit "gamma" <> []
    /\ Some 2%Z = meta_page m
    /\ Some 2%Z = meta_chunk_index m
    /\ Some (1 - (1 # 4))%Q = option_map (fun x => (1 - x)%Q) dist.
Proof.
  apply (retrieve_top_k_origin (fun _ => tt) sample_query [] (lit "doc")
           (lit "q") 2
           (mkRetrieved (lit "gamma") (Some 2%Z) (Some 2%Z)
                        (Some (1 - (1 # 4))%Q))).
  vm_compute. right. left. reflexivity.
Defined.

Lemma StronglySorted_app_le {A : Type} (R : A -> A -> Prop) (l1 l2 : list A) :
  StronglySorted R (l1 ++ l2) ->
  forall a b, In a l1 -> In b l2 -> R a b.
Proof.
  induction l1 as [|x l1 IH]; intros H a b Ha Hb; [contradiction|].
  simpl in H. inversion H as [|? ? Hs Hx]; subst.
  destruct Ha as [->|Ha]; [|now apply IH].
  rewrite Forall_forall in Hx. apply Hx. apply in_or_app. now right.
Qed.

Lemma sort_desc_sorted (l : list Retrieved) :
  StronglySorted (fun a b => (sim_key b <= sim_key a)%Q) (sort_desc l).
Proof.
  induction l as [|x l IH]; simpl; [constructor|].
  revert IH. generalize (sort_desc l). intros s Hs.
  induction Hs as [|y s Hs IH Hy]; simpl; [repeat constructor|].
  destruct (Qle_bool (sim_key y) (sim_key x)) eqn:Hle.
  - apply Qle_bool_iff in Hle. constructor; [now constructor|].
    constructor; [exact Hle|].
    rewrite Forall_forall in *. intros z Hz.
    eapply Qle_trans; [apply Hy, Hz|exact Hle].
  - constructor; [exact IH|].
    apply (Permutation_Forall (insert_desc_perm x s)).
    constructor; [|exact Hy]. apply Qlt_le_weak, Qnot_le_lt.
    intros H. apply Qle_bool_iff in H. congruence.
Qed.

(** X13: the entries dropped by the cut at top_k are never ranked above an
    entry that is kept: a deduplicated entry that is not returned has a
    sort key at most that of every entry returned. *)
Theorem retrieve_top_k_keeps_best {E : Type} (embed : str -> E)
        (query : Collection E -> list E -> Z -> str -> QueryResult)
        (c : Collection E) (doc_id question : str) (top_k : Z)
        (a b : Retrieved)
        (Ha : In a (retrieve_top_k embed query c doc_id question top_k))
        (Hb : In b (dedupe (retrieved_of embed query c doc_id question top_k)))
        (Hnb : ~ In b (retrieve_top_k embed query c doc_id question top_k)) :
  (sim_key b <= sim_key a)%Q.
Proof.
  rewrite retrieve_top_k_eq in Ha, Hnb.
  set (l := dedupe (retrieved_of embed query c doc_id question top_k)) in *.
  destruct (slice_to_firstn (sort_desc l) top_k) as [n Hn].
  rewrite Hn in Ha, Hnb.
  pose proof (sort_desc_sorted l) as Hs.
  rewrite <- (firstn_skipn n (sort_desc l)) in Hs.
  apply (StronglySorted_app_le _ _ _ Hs a b Ha).
  apply (Permutation_in _ (sort_desc_perm l)) in Hb.
  rewrite <- (firstn_skipn n (sort_desc l)) in Hb.
  apply in_app_or in Hb as [Hb|Hb]; [contradiction|exact Hb].
Qed.

Lemma retrieve_top_k_keeps_best_witness :
  (sim_key (mkRetrieved (lit "alpha") (Some 1%Z) (Some 0%Z)
                        (Some (1 - (1 # 2))%Q))
   <= sim_key (mkRetrieved (lit "gamma") (Some 2%Z) (Some 2%Z)
                           (Some (1 - (1 # 4))%Q)))%Q.
Proof.
  apply (retrieve_top_k_keeps_best (fun _ => tt) sample_query [] (lit "doc")
           (lit "q") 2).
  - vm_compute. right. left. reflexivity.
  - vm_compute. left. reflexivity.
  - vm_compute. intros [H|[H|[]]]; discriminate.
Defined.

Lemma dedupe_from_complete (rs : list Retrieved) :
  forall (seen : list Key) (r : Retrieved),
    In r rs -> ~ In (key_of r) seen ->
    exists r', In r' (dedupe_from seen rs) /\ key_of r' = key_of r.
Proof.
  induction rs as [|r0 rs IH]; intros seen r Hin Hns; [contradiction|].
  simpl. destruct (key_in (key_of r0) seen) eqn:Hk.
  - destruct Hin as [->|Hin]; [apply key_in_spec in Hk; contradiction|].
    now apply IH.
  - destruct (key_eq_dec (key_of r0) (key_of r)) as [He|Hne].
    + exists r0. split; [now left|exact He].
    + destruct Hin as [->|Hin]; [congruence|].
      destruct (IH (key_of r0 :: seen) r Hin) as (r' & Hr' & Hk').
      * intros [H|H]; [congruence|contradiction].
      * exists r'. split; [now right|exact Hk'].
Qed.

(** X14: when top_k is at least the number of distinct (page, chunk_index)
    keys in the index's answer, nothing is cut: the result is the whole
    deduplicated list in rank order, and every key of the answer is the key
    of an entry returned. *)
Theorem retrieve_top_k_complete {E : Type} (embed : str -> E)
        (query : Collection E -> list E -> Z -> str -> QueryResult)
        (c : Collection E) (doc_id question : str) (top_k : Z)
        (Hroom : (Z.of_nat (length (dedupe (retrieved_of embed query c doc_id
                                              question top_k))) <= top_k)%Z) :
  retrieve_top_k embed query c doc_id question top_k
  = sort_desc (dedupe (retrieved_of embed query c doc_id question top_k))
  /\ forall r, In r (retrieved_of embed query c doc_id question top_k) ->
       exists r', In r' (retrieve_top_k embed query c doc_id question top_k)
                  /\ key_of r' = key_of r.
Proof.
  set (l := dedupe (retrieved_of embed query c doc_id question top_k)) in *.
  assert (Heq : retrieve_top_k embed query c doc_id question top_k
                = sort_desc l).
  { rewrite retrieve_top_k_eq. fold l. unfold slice_to.
    destruct (Z.leb_spec 0 top_k); [|lia].
    apply firstn_all2.
    rewrite <- (Permutation_length (sort_desc_perm l)). lia. }
  split; [exact Heq|]. intros r Hr. rewrite Heq.
  destruct (dedupe_from_complete _ [] r Hr) as (r' & Hr' & Hk); [tauto|].
  exists r'. split; [|exact Hk].
  now apply (Permutation_in _ (sort_desc_perm l)).
Qed.

Lemma retrieve_top_k_complete_witness :
  map r_text
      (retrieve_top_k (fun _ => tt) sample_query [] (lit "doc") (lit "q") 3)
  = [lit "beta"; lit "gamma"; lit "alpha"].
Proof.
  destruct (retrieve_top_k_complete (fun _ => tt) sample_query [] (lit "doc")
              (lit "q") 3) as [H _].
  - vm_compute. discriminate.
  - rewrite H. vm_compute. reflexivity.
Defined.

(** ** Splitting and joining words *)

Lemma split_ws_word (w : str) :
  forallb (fun c => negb (isspace c)) w = true ->
  forall cur rest : str,
    split_ws cur (w ++ rest) = split_ws (rev w ++ cur) rest.
Proof.
  induction w as [|c w IH]; intros Hw cur rest; [reflexivity|].
  simpl in Hw. apply andb_true_iff in Hw as [Hc Hw].
  cbn [app split_ws]. destruct (isspace c); [discriminate|].
  rewrite (IH Hw). simpl rev. now rewrite <- app_assoc.
Qed.

Lemma wordb_spec (w : str) :
  wordb w = true ->
  w <> [] /\ forallb (fun c => negb (isspace c)) w = true.
Proof.
  unfold wordb. intros H. apply andb_true_iff in H as [Ht Hw].
  split; [now destruct w|exact Hw].
Qed.

Lemma split_ws_flush (w rest : str) :
  wordb w = true ->
  split_ws [] (w ++ space :: rest) = w :: split_ws [] rest.
Proof.
  intros H. apply wordb_spec in H as [Hne Hw].
  rewrite (split_ws_word w Hw). rewrite app_nil_r. cbn [split_ws].
  change (isspace space) with true. cbv iota.
  destruct (rev w) as [|c r] eqn:Hr.
  - apply (f_equal (@rev char)) in Hr. rewrite rev_involutive in Hr.
    contradiction.
  - rewrite <- Hr, rev_involutive. reflexivity.
Qed.

Lemma split_ws_last (w : str) :
  wordb w = true -> split_ws [] w = [w].
Proof.
  intros H. apply wordb_spec in H as [Hne Hw].
  rewrite <- (app_nil_r w) at 1. rewrite (split_ws_word w Hw).
  rewrite app_nil_r. cbn [split_ws].
  destruct (rev w) as [|c r] eqn:Hr.
  - apply (f_equal (@rev char)) in Hr. rewrite rev_involutive in Hr.
    contradiction.
  - rewrite <- Hr, rev_involutive. reflexivity.
Qed.

(** Splitting undoes joining: words joined by single spaces and split again
    are the same words, in the same order. *)
Lemma split_join (ws : list str)
        (Hw : forallb wordb ws = true) :
  split (join [space] ws) = ws.
Proof.
  unfold split. induction ws as [|w ws IH]; [reflexivity|].
  simpl in Hw. apply andb_true_iff in Hw as [Hw Hws].
  destruct ws as [|w' ws]; [now apply split_ws_last|].
  change (join [space] (w :: w' :: ws))
    with (w ++ space :: join [space] (w' :: ws)).
  rewrite (split_ws_flush _ _ Hw). f_equal. now apply IH.
Qed.

Lemma split_join_witness :
  split (join [space] [lit "one"; lit "two"]) = [lit "one"; lit "two"].
Proof. apply (split_join [lit "one"; lit "two"]). vm_compute. reflexivity. Defined.

(** The words [split] gives are words. *)
Lemma split_ws_words (s : str) :
  forall cur : str,
    forallb (fun c => negb (isspace c)) cur = true ->
    forallb wordb (split_ws cur s) = true.
Proof.
  assert (W : forall cur, cur <> [] ->
                forallb (fun c => negb (isspace c)) cur = true ->
                wordb (rev cur) = true).
  { intros cur Hne Hc. unfold wordb. rewrite forallb_rev, Hc, andb_true_r.
    destruct (rev cur) eqn:Hr; [|reflexivity].
    apply (f_equal (@rev char)) in Hr. rewrite rev_involutive in Hr.
    contradiction. }
  induction s as [|c s IH]; intros cur Hcur; cbn [split_ws].
  - destruct cur as [|x cur]; [reflexivity|].
    cbn [forallb]. rewrite W; [reflexivity|discriminate|exact Hcur].
  - destruct (isspace c) eqn:Hc.
    + destruct cur as [|x cur]; [now apply IH|].
      cbn [forallb]. rewrite W; [|discriminate|exact Hcur].
      now apply IH.
    + apply IH. cbn [forallb]. now rewrite Hc, Hcur.
Qed.

Lemma split_ws_chars (s : str) :
  forall (cur w : str) (c : char),
    In w (split_ws cur s) -> In c w -> In c cur \/ In c s.
Proof.
  induction s as [|x s IH]; intros cur w c Hw Hc; cbn [split_ws] in Hw.
  - destruct cur as [|y cur]; [contradiction|].
    destruct Hw as [<-|[]]. left. now apply in_rev.
  - destruct (isspace x).
    + destruct cur as [|y cur].
      * destruct (IH _ _ _ Hw Hc) as [[]|H]. right. now right.
      * destruct Hw as [<-|Hw]; [left; now apply in_rev|].
        destruct (IH _ _ _ Hw Hc) as [[]|H]. right. now right.
    + destruct (IH _ _ _ Hw Hc) as [[->|H]|H]; auto.
      * right. now left.
      * right. now right.
Qed.

Lemma replace_char (b x : char) (s : str) :
  replace [b] [x] s = map (fun c => if (b =? c)%N then x else c) s.
Proof.
  unfold replace. induction s as [|c s IH]; [reflexivity|].
  cbn [replace_scan startswith length Nat.sub map app].
  destruct (b =? c)%N; cbn [andb]; destruct s; cbn [app]; now rewrite <- ?IH.
Qed.

(** ** The collapsed text *)

(** The collapsed text is a list of words joined by single spaces, and no
    word holds a bullet. *)
Lemma collapse_words (text : str) :
  exists ws : list str,
    collapse text = join [space] ws
    /\ forallb wordb ws = true
    /\ (forall w c, In w ws -> In c w -> c <> bullet).
Proof.
  exists (split (replace [bullet] [space] text)).
  split; [reflexivity|]. split; [now apply split_ws_words|].
  intros w c Hw Hc. unfold split in Hw.
  destruct (split_ws_chars _ _ _ _ Hw Hc) as [[]|H].
  rewrite replace_char in H. apply in_map_iff in H as (x & Hx & _).
  destruct (bullet =? x)%N eqn:Hb; subst c; [discriminate|].
  intros ->. now rewrite N.eqb_refl in Hb.
Qed.

Lemma join_cons2 (w w' : str) (ws : list str) :
  join [space] (w :: w' :: ws) = w ++ space :: join [space] (w' :: ws).
Proof. reflexivity. Qed.

Lemma join_chars (ws : list str) (c : char) :
  In c (join [space] ws) -> c = space \/ exists w, In w ws /\ In c w.
Proof.
  induction ws as [|w ws IH]; intros H; [contradiction|].
  destruct ws as [|w' ws].
  - right. exists w. split; [now left|exact H].
  - rewrite join_cons2 in H. apply in_app_or in H as [H|[H|H]].
    + right. exists w. split; [now left|exact H].
    + left. now symmetry.
    + destruct (IH H) as [->|(x & Hx & Hc)]; [now left|].
      right. exists x. split; [now right|exact Hc].
Qed.

Lemma word_head (w : str) :
  wordb w = true -> exists c s, w = c :: s /\ isspace c = false.
Proof.
  intros H. apply wordb_spec in H as [Hne Hw].
  destruct w as [|c s]; [contradiction|]. exists c, s. split; [reflexivity|].
  simpl in Hw. apply andb_true_iff in Hw as [Hc _]. now destruct (isspace c).
Qed.

Lemma join_head (ws : list str) :
  forallb wordb ws = true ->
  ws <> [] ->
  exists c s, join [space] ws = c :: s /\ isspace c = false.
Proof.
  destruct ws as [|w ws]; intros Hw Hne; [contradiction|].
  simpl in Hw. apply andb_true_iff in Hw as [Hw _].
  destruct (word_head w Hw) as (c & s & -> & Hc).
  destruct ws as [|w' ws]; [now exists c, s|].
  rewrite join_cons2. exists c, (s ++ space :: join [space] (w' :: ws)).
  split; [reflexivity|exact Hc].
Qed.

Lemma join_last (ws : list str) :
  forallb wordb ws = true ->
  ws <> [] ->
  exists s c, join [space] ws = s ++ [c] /\ isspace c = false.
Proof.
  induction ws as [|w ws IH]; intros Hw Hne; [contradiction|].
  simpl in Hw. apply andb_true_iff in Hw as [Hw Hws].
  destruct ws as [|w' ws].
  - apply wordb_spec in Hw as [Hn Hf].
    destruct (exists_last Hn) as (s & c & ->). exists s, c.
    split; [reflexivity|]. rewrite forallb_app in Hf.
    apply andb_true_iff in Hf as [_ Hf]. simpl in Hf.
    now destruct (isspace c).
  - destruct (IH Hws ltac:(discriminate)) as (s & c & Hj & Hc).
    rewrite join_cons2, Hj. exists (w ++ space :: s), c.
    split; [now rewrite <- app_assoc|exact Hc].
Qed.

Lemma rstrip_last (s : str) (c : char) :
  isspace c = false -> rstrip (s ++ [c]) = s ++ [c].
Proof.
  intros Hc. unfold rstrip. rewrite rev_app_distr. simpl. rewrite Hc.
  simpl. now rewrite rev_involutive.
Qed.

Lemma strip_join (ws : list str) :
  forallb wordb ws = true -> strip (join [space] ws) = join [space] ws.
Proof.
  intros Hw. destruct ws as [|w ws]; [reflexivity|].
  destruct (join_head _ Hw ltac:(discriminate)) as (c & s & Hj & Hc).
  destruct (join_last _ Hw ltac:(discriminate)) as (s' & c' & Hj' & Hc').
  unfold strip. rewrite Hj at 1. rewrite (lstrip_head _ _ Hc), <- Hj, Hj'.
  now apply rstrip_last.
Qed.

Lemma contains_skip_word (w rest : str) :
  forallb (fun c => negb (isspace c)) w = true ->
  contains [space; space] (w ++ rest) = contains [space; space] rest.
Proof.
  induction w as [|c w IH]; intros Hw; [reflexivity|].
  simpl in Hw. apply andb_true_iff in Hw as [Hc Hw].
  cbn [app]. rewrite <- (IH Hw).
  change (contains [space; space] (c :: w ++ rest))
    with (startswith [space; space] (c :: w ++ rest)
          || contains [space; space] (w ++ rest)).
  cbn [startswith].
  destruct (space =? c)%N eqn:He; [|reflexivity].
  apply N.eqb_eq in He. subst c. discriminate.
Qed.

Lemma join_no_double_space (ws : list str) :
  forallb wordb ws = true ->
  contains [space; space] (join [space] ws) = false.
Proof.
  induction ws as [|w ws IH]; intros Hw; [reflexivity|].
  simpl in Hw. apply andb_true_iff in Hw as [Hw Hws].
  pose proof (wordb_spec _ Hw) as [_ Hf].
  destruct ws as [|w' ws].
  - cbn [join]. rewrite <- (app_nil_r w), (contains_skip_word _ _ Hf).
    reflexivity.
  - rewrite join_cons2, (contains_skip_word _ _ Hf).
    destruct (join_head _ Hws ltac:(discriminate)) as (c & s & Hj & Hc).
    specialize (IH Hws). rewrite Hj in *.
    change (contains [space; space] (space :: c :: s))
      with (startswith [space; space] (space :: c :: s)
            || contains [space; space] (c :: s)).
    rewrite IH, orb_false_r. cbn [startswith].
    destruct (space =? c)%N eqn:He; [|reflexivity].
    apply N.eqb_eq in He. subst c. discriminate.
Qed.

(** X15: the collapsed text is one clean line: it holds no bullet and no
    whitespace character other than the space, it neither starts nor ends
    with a space, and it never has two spaces in a row. *)
Theorem collapse_clean (text : str) :
  ~ In bullet (collapse text)
  /\ (forall c, In c (collapse text) -> isspace c = true -> c = space)
  /\ strip (collapse text) = collapse text
  /\ contains [space; space] (collapse text) = false.
Proof.
  destruct (collapse_words text) as (ws & -> & Hw & Hb).
  split; [|split; [|split]].
  - intros H. apply join_chars in H as [H|(w & Hin & Hc)]; [discriminate|].
    now apply (Hb w bullet).
  - intros c H Hs. apply join_chars in H as [H|(w & Hin & Hc)]; [exact H|].
    rewrite forallb_forall in Hw. specialize (Hw _ Hin).
    apply wordb_spec in Hw as [_ Hf]. rewrite forallb_forall in Hf.
    specialize (Hf _ Hc). rewrite Hs in Hf. discriminate.
  - now apply strip_join.
  - now apply join_no_double_space.
Qed.

(** X16: collapsing is idempotent: a collapsed text collapses to itself. *)
Theorem collapse_idempotent (text : str) :
  collapse (collapse text) = collapse text.
Proof.
  destruct (collapse_words text) as (ws & -> & Hw & Hb).
  unfold collapse at 1. rewrite replace_char.
  assert (Hid : map (fun c => if (bullet =? c)%N then space else c)
                    (join [space] ws) = join [space] ws).
  { rewrite <- (map_id (join [space] ws)) at 2. apply map_ext_in.
    intros c Hc. destruct (bullet =? c)%N eqn:He; [|reflexivity].
    apply N.eqb_eq in He. subst c.
    apply join_chars in Hc as [Hc|(w & Hin & Hc)]; [discriminate|].
    exfalso. now apply (Hb w bullet). }
  rewrite Hid. f_equal.
  clear Hb Hid. unfold split. induction ws as [|w ws IH]; [reflexivity|].
  simpl in Hw. apply andb_true_iff in Hw as [Hw Hws].
  destruct ws as [|w' ws]; [now apply split_ws_last|].
  rewrite join_cons2, (split_ws_flush _ _ Hw). f_equal. now apply IH.
Qed.

(** ** Excerpts: what a cut looks like *)

Lemma rstrip_prefix (s : str) : exists r : str, s = rstrip s ++ r.
Proof.
  induction s as [|c s (r & IH)]; [now exists []|].
  rewrite rstrip_cons. destruct (forallb isspace s).
  - destruct (isspace c); [now exists (c :: s)|now exists s].
  - exists r. simpl. now rewrite <- IH.
Qed.

Lemma slice_to_prefix {A : Type} (l : list A) (n : Z) :
  exists r : list A, l = slice_to l n ++ r.
Proof.
  destruct (slice_to_firstn l n) as [m ->]. exists (skipn m l).
  now rewrite firstn_skipn.
Qed.

Lemma firstn_snoc {A : Type} (d : A) (l : list A) :
  forall n : nat, n < length l -> firstn (S n) l = firstn n l ++ [nth n l d].
Proof.
  induction l as [|x l IH]; intros n Hn; [simpl in Hn; lia|].
  destruct n as [|n]; [reflexivity|].
  simpl in Hn. cbn [firstn nth app]. f_equal. apply IH. lia.
Qed.

Lemma rfind_from_spec (c : char) (s : str) :
  forall i last : Z,
    rfind_from c s i last = last
    \/ ((i <= rfind_from c s i last < i + Z.of_nat (length s))%Z
        /\ nth (Z.to_nat (rfind_from c s i last - i)) s 0%N = c).
Proof.
  induction s as [|d s IH]; intros i last; [now left|].
  cbn [rfind_from length].
  destruct (IH (i + 1)%Z (if (d =? c)%N then i else last)) as [H|[H1 H2]].
  - rewrite H. destruct (d =? c)%N eqn:Hd; [|now left].
    right. split; [lia|]. rewrite Z.sub_diag. simpl. now apply N.eqb_eq.
  - right. split; [lia|].
    replace (Z.to_nat (rfind_from c s (i + 1) (if (d =? c)%N then i else last)
                       - i))
      with (S (Z.to_nat (rfind_from c s (i + 1)
                           (if (d =? c)%N then i else last) - (i + 1))))
      by lia.
    exact H2.
Qed.

(** The text up to and including the last period found. *)
Lemma cut_at_period (snippet : str) :
  rfind dot snippet <> (-1)%Z ->
  exists q : str, slice_to snippet (rfind dot snippet + 1) = q ++ [dot].
Proof.
  intros Hcut. unfold rfind in *.
  destruct (rfind_from_spec dot snippet 0 (-1)) as [H|[H1 H2]];
    [contradiction|].
  rewrite Z.sub_0_r in H2. clear Hcut.
  remember (rfind_from dot snippet 0 (-1)) as z eqn:Hz. clear Hz.
  remember (length snippet) as n eqn:Hn.
  assert (Hlt : Z.to_nat z < n) by lia.
  unfold slice_to. destruct (Z.leb_spec 0 (z + 1)); [|lia].
  replace (Z.to_nat (z + 1)) with (S (Z.to_nat z)) by lia.
  subst n. rewrite (firstn_snoc (A := char) 0%N _ _ Hlt), H2. eauto.
Qed.

(** X17: when the collapsed text is longer than max_chars, the excerpt is
    a beginning of the collapsed text, without whitespace at its end,
    followed by one ellipsis; when it is cut at a sentence end, that
    beginning ends with a period. *)
Theorem trim_excerpt_marked (text : str) (max_chars : Z)
        (Hne : text <> [])
        (Hlong : (max_chars < Z.of_nat (length (collapse text)))%Z) :
  exists p rest : str,
    collapse text = p ++ rest
    /\ trim_excerpt text max_chars = p ++ [ellipsis]
    /\ rstrip p = p
    /\ (trim_branch text max_chars = BrSentence -> exists q, p = q ++ [dot]).
Proof.
  unfold trim_excerpt, trim_branch.
  destruct text as [|c0 text0]; [contradiction|]. cbn [truthy negb].
  set (t := collapse (c0 :: text0)) in *.
  destruct (Z.leb_spec (Z.of_nat (length t)) max_chars) as [Hle|_]; [lia|].
  set (snippet := slice_to t (max_chars + 40)).
  destruct ((rfind dot snippet =? -1)%Z
            || (rfind dot snippet <? int_mul_06 max_chars)%Z) eqn:Hb.
  - destruct (slice_to_prefix t max_chars) as [r1 H1].
    destruct (rstrip_prefix (slice_to t max_chars)) as [r2 H2].
    exists (rstrip (slice_to t max_chars)), (r2 ++ r1).
    split; [|split; [reflexivity|split; [apply rstrip_idem|discriminate]]].
    rewrite app_assoc, <- H2. exact H1.
  - apply orb_false_iff in Hb as [Hcut _]. apply Z.eqb_neq in Hcut.
    destruct (cut_at_period snippet Hcut) as [q Hq].
    destruct (slice_to_prefix t (max_chars + 40)) as [r1 H1].
    fold snippet in H1.
    destruct (slice_to_prefix snippet (rfind dot snippet + 1)) as [r2 H2].
    rewrite Hq, rstrip_last by reflexivity.
    exists (q ++ [dot]), (r2 ++ r1).
    split; [|split; [reflexivity|split; [now apply rstrip_last|eauto]]].
    rewrite app_assoc, <- Hq, <- H2. exact H1.
Qed.

Lemma trim_excerpt_marked_witness :
  exists p rest : str,
    collapse (lit "One. Two three four") = p ++ rest
    /\ trim_excerpt (lit "One. Two three four") 6 = p ++ [ellipsis]
    /\ rstrip p = p
    /\ (trim_branch (lit "One. Two three four") 6 = BrSentence ->
        exists q, p = q ++ [dot]).
Proof.
  apply (trim_excerpt_marked (lit "One. Two three four") 6).
  - discriminate.
  - vm_compute. reflexivity.
Defined.

Lemma collapse_chars (text : str) (c : char) :
  In c (collapse text) -> c <> bullet /\ (isspace c = true -> c = space).
Proof.
  destruct (collapse_words text) as (ws & -> & Hw & Hb). intros H.
  apply join_chars in H as [->|(w & Hin & Hc)].
  - split; [discriminate|reflexivity].
  - split; [now apply (Hb w)|]. intros Hs.
    rewrite forallb_forall in Hw. specialize (Hw _ Hin).
    apply wordb_spec in Hw as [_ Hf]. rewrite forallb_forall in Hf.
    specialize (Hf _ Hc). rewrite Hs in Hf. discriminate.
Qed.

Lemma In_rstrip (s : str) (c : char) : In c (rstrip s) -> In c s.
Proof.
  intros H. destruct (rstrip_prefix s) as [r Hr]. rewrite Hr.
  apply in_or_app. now left.
Qed.

Lemma In_slice_to {A : Type} (l : list A) (n : Z) (x : A) :
  In x (slice_to l n) -> In x l.
Proof.
  intros H. destruct (slice_to_prefix l n) as [r Hr]. rewrite Hr.
  apply in_or_app. now left.
Qed.

(** X18: an excerpt is a single line: whatever the text and max_chars, it
    holds no bullet and no whitespace character other than the space (no
    newline, no tab). *)
Theorem trim_excerpt_single_line (text : str) (max_chars : Z) (c : char)
        (Hc : In c (trim_excerpt text max_chars)) :
  c <> bullet /\ (isspace c = true -> c = space).
Proof.
  assert (He : c = ellipsis -> c <> bullet /\ (isspace c = true -> c = space)).
  { intros ->. split; discriminate. }
  unfold trim_excerpt in Hc.
  destruct (negb (truthy text)); [contradiction|].
  destruct (Z.of_nat (length (collapse text)) <=? max_chars)%Z;
    [now apply (collapse_chars text)|].
  destruct ((rfind dot (slice_to (collapse text) (max_chars + 40)) =? -1)%Z
            || (rfind dot (slice_to (collapse text) (max_chars + 40))
                <? int_mul_06 max_chars)%Z);
    apply in_app_or in Hc as [Hc|[Hc|[]]]; try (now apply He);
    apply (collapse_chars text).
  - now apply In_rstrip, In_slice_to in Hc.
  - now apply In_rstrip, In_slice_to, In_slice_to in Hc.
Qed.

Lemma trim_excerpt_single_line_witness :
  space <> bullet /\ (isspace space = true -> space = space).
Proof.
  apply (trim_excerpt_single_line ([nl] ++ lit "a" ++ [9%N; bullet] ++ lit "b")
                                  260 space).
  vm_compute. right. left. reflexivity.
Defined.

(** ** Prompt *)

Lemma startswith_app (p b : str) : startswith p (p ++ b) = true.
Proof.
  induction p as [|c p IH]; [reflexivity|]. simpl. now rewrite N.eqb_refl.
Qed.

Lemma contains_head (p b : str) : contains p (p ++ b) = true.
Proof.
  destruct p as [|c p]; [now destruct b|].
  change (contains (c :: p) ((c :: p) ++ b))
    with (startswith (c :: p) ((c :: p) ++ b)
          || contains (c :: p) (p ++ b)).
  now rewrite startswith_app.
Qed.

Lemma contains_refl (p : str) : contains p p = true.
Proof. rewrite <- (app_nil_r p) at 2. apply contains_head. Qed.

Lemma contains_app_r (p a s : str) :
  contains p s = true -> contains p (a ++ s) = true.
Proof.
  intros H. induction a as [|c a IH]; [exact H|].
  change (contains p ((c :: a) ++ s))
    with (startswith p (c :: a ++ s) || contains p (a ++ s)).
  rewrite IH. apply orb_true_r.
Qed.

Lemma startswith_elim (p s : str) :
  startswith p s = true -> exists b, s = p ++ b.
Proof.
  revert s. induction p as [|c p IH]; intros s H; [now exists s|].
  destruct s as [|d s]; [discriminate|]. simpl in H.
  apply andb_true_iff in H as [Hc H]. apply N.eqb_eq in Hc. subst d.
  destruct (IH _ H) as [b ->]. now exists b.
Qed.

Lemma contains_elim (p s : str) :
  contains p s = true -> exists a b, s = a ++ p ++ b.
Proof.
  induction s as [|c s IH]; intros H.
  - simpl in H. rewrite orb_false_r in H.
    apply startswith_elim in H as [b Hb]. now exists [], b.
  - change (contains p (c :: s))
      with (startswith p (c :: s) || contains p s) in H.
    apply orb_true_iff in H as [H|H].
    + apply startswith_elim in H as [b Hb]. now exists [], b.
    + destruct (IH H) as (a & b & ->). now exists (c :: a), b.
Qed.

Lemma contains_trans (p s t : str) :
  contains p s = true -> contains s t = true -> contains p t = true.
Proof.
  intros H1 H2. apply contains_elim in H1 as (a & b & ->).
  apply contains_elim in H2 as (a' & b' & ->).
  rewrite <- !app_assoc. do 2 apply contains_app_r. apply contains_head.
Qed.

Lemma contains_join (sep b : str) (blocks : list str) :
  In b blocks -> contains b (join sep blocks) = true.
Proof.
  induction blocks as [|x blocks IH]; intros H; [contradiction|].
  destruct blocks as [|y blocks].
  - destruct H as [->|[]]. apply contains_refl.
  - change (join sep (x :: y :: blocks))
      with (x ++ sep ++ join sep (y :: blocks)).
    destruct H as [->|H]; [apply contains_head|].
    do 2 apply contains_app_r. now apply IH.
Qed.

Ltac find_part :=
  first [ apply contains_head
        | apply contains_refl
        | apply contains_app_r; find_part ].

(** X19: the prompt holds, verbatim, the question, the fixed sentence to
    answer when the context does not suffice, the joined context blocks
    in the order received, and for every chunk its block and its text,
    unchanged. *)
Theorem build_prompt_verbatim (question : str) (rs : list Retrieved) :
  contains question (build_prompt question rs) = true
  /\ contains FALLBACK (build_prompt question rs) = true
  /\ contains (join ([nl; nl] ++ lit "---" ++ [nl; nl]) (map context_block rs))
              (build_prompt question rs) = true
  /\ forall r, In r rs ->
       contains (context_block r) (build_prompt question rs) = true
       /\ contains (r_text r) (build_prompt question rs) = true.
Proof.
  assert (Hctx : contains
                   (join ([nl; nl] ++ lit "---" ++ [nl; nl])
                         (map context_block rs))
                   (build_prompt question rs) = true).
  { unfold build_prompt. find_part. }
  split; [unfold build_prompt; find_part|].
  split; [unfold build_prompt; find_part|].
  split; [exact Hctx|].
  intros r Hr.
  assert (Hb : contains (context_block r) (build_prompt question rs) = true).
  { apply contains_trans with (2 := Hctx). apply contains_join.
    now apply in_map. }
  split; [exact Hb|].
  apply contains_trans with (2 := Hb). unfold context_block. find_part.
Qed.

Lemma build_prompt_verbatim_witness :
  contains (lit "(page 3) the text")
           (build_prompt (lit "why?")
              [mkRetrieved (lit "the text") (Some 3%Z) None None]) = true.
Proof.
  destruct (build_prompt_verbatim (lit "why?")
              [mkRetrieved (lit "the text") (Some 3%Z) None None])
    as (_ & _ & _ & H).
  destruct (H (mkRetrieved (lit "the text") (Some 3%Z) None None)) as [Hb _];
    [now left|].
  exact Hb.
Defined.

(** ** The [/ask] route: outcomes *)

Section AskFacts.
Context {E : Type} (embed : str -> E).
Context (query : Collection E -> list E -> Z -> str -> QueryResult).
Context (llm : str -> str + str).

(** The three ways a call of [ask] ends. *)
Lemma ask_cases (payload : AskRequest) (w : World E) :
  let retrieved :=
    retrieve_top_k embed query (w_collection w) (doc_id payload)
                   (question payload) (top_k payload) in
  let prompt := build_prompt (question payload) retrieved in
  let w' := mkWorld (w_collection w) (w_trace w ++ [EvLLM prompt]) in
  (retrieved = []
   /\ ask embed query llm payload w
      = (AskOk (mkAskResponse (doc_id payload) (question payload)
                              FALLBACK [] []), w))
  \/ (retrieved <> []
      /\ exists exc, llm prompt = inr exc
         /\ ask embed query llm payload w
            = (HTTPException 502
                 (lit "Upstream model error or timeout: " ++ exc), w'))
  \/ (retrieved <> []
      /\ exists output_text, llm prompt = inl output_text
         /\ ask embed query llm payload w
            = (AskOk (mkAskResponse (doc_id payload) (question payload)
                        (clean_answer output_text)
                        (sorted_set (pages_not_none retrieved))
                        (map (fun r => mkEvidence (r_page r)
                                         (trim_excerpt (r_text r) 260))
                             (slice_to retrieved 2))), w')).
Proof.
  intros retrieved prompt w'. unfold ask, bind, read_collection.
  fold retrieved. destruct retrieved as [|r rs] eqn:Hr.
  - left. split; reflexivity.
  - right. fold prompt. unfold responses_create.
    destruct (llm prompt) as [out|exc] eqn:Hl.
    + right. split; [discriminate|]. exists out. split; [reflexivity|].
      cbn [ret]. reflexivity.
    + left. split; [discriminate|]. exists exc. split; reflexivity.
Qed.
End AskFacts.

Lemma llm_calls_app (tr1 tr2 : list Event) :
  llm_calls (tr1 ++ tr2) = llm_calls tr1 ++ llm_calls tr2.
Proof.
  induction tr1 as [|e tr1 IH]; [reflexivity|].
  destruct e; simpl; now rewrite IH.
Qed.

(** X20: [ask] only reads the index: whatever the request and the outcome,
    the collection is the one it started from, the trace gains no delete
    and no add, and the language model is called at most once. *)
Theorem ask_read_only {E : Type} (embed : str -> E)
        (query : Collection E -> list E -> Z -> str -> QueryResult)
        (llm : str -> str + str) (payload : AskRequest) (w : World E) :
  w_collection (snd (ask embed query llm payload w)) = w_collection w
  /\ filter is_index_op (w_trace (snd (ask embed query llm payload w)))
     = filter is_index_op (w_trace w)
  /\ length (llm_calls (w_trace (snd (ask embed query llm payload w))))
     <= S (length (llm_calls (w_trace w))).
Proof.
  destruct (ask_cases embed query llm payload w)
    as [[_ H]|[(_ & exc & _ & H)|(_ & out & _ & H)]]; rewrite H;
    cbn [snd w_collection w_trace];
    rewrite ?filter_app, ?llm_calls_app, ?length_app; cbn;
    rewrite ?app_nil_r; repeat split; lia.
Qed.

(** X21: a call of [ask] ends with an HTTP error raised by the handler
    itself exactly when the retrieval returned at least one chunk and the
    call of the language model raised; that error has status 502 and its
    detail is the fixed prefix followed by the message of the exception.
    When the number of results asked of the index is not positive, that
    is for top_k <= 0, the query raises before the [try] block: the call
    ends with that exception, not with a 502, and nothing has been
    changed nor the language model called. *)
Theorem ask_upstream_error {E : Type} (embed : str -> E)
        (query : Collection E -> list E -> Z -> str -> QueryResult)
        (llm : str -> str + str) (payload : AskRequest) (w : World E) :
  let retrieved :=
    retrieve_top_k embed query (w_collection w) (doc_id payload)
                   (question payload) (top_k payload) in
  (forall (status : Z) (detail : str),
      fst (ask_call embed query llm payload w)
      = Returns (HTTPException status detail)
      <-> (0 < top_k payload)%Z
          /\ retrieved <> []
          /\ exists exc,
              llm (build_prompt (question payload) retrieved) = inr exc
              /\ status = 502%Z
              /\ detail = lit "Upstream model error or timeout: " ++ exc)
  /\ ((top_k payload <= 0)%Z ->
      ask_call embed query llm payload w = (Raises, w)).
Proof.
  intros retrieved. subst retrieved. unfold ask_call, retrieve_top_k_call,
    query_rejects.
  destruct (Z.leb_spec (Z.max (top_k payload * 3) (top_k payload)) 0)
    as [Hle|Hgt].
  - split; [|reflexivity]. intros status detail. split; [discriminate|].
    intros [Hpos _]. lia.
  - split; [|intros Hk; lia]. intros status detail.
    assert (Hpos : (0 < top_k payload)%Z) by lia.
    destruct (ask_cases embed query llm payload w)
      as [[Hr H]|[(Hr & exc & Hl & H)|(Hr & out & Hl & H)]];
      rewrite H; cbn [fst]; split.
    + discriminate.
    + intros (_ & Hne & _). contradiction.
    + intros Heq. injection Heq as <- <-. split; [exact Hpos|].
      split; [exact Hr|]. exists exc. auto.
    + intros (_ & _ & exc' & Hl' & -> & ->). rewrite Hl in Hl'.
      injection Hl' as <-. reflexivity.
    + discriminate.
    + intros (_ & _ & exc' & Hl' & _). rewrite Hl in Hl'. discriminate.
Qed.

Lemma ask_upstream_error_witness :
  fst (ask_call (fun _ => tt) sample_query (fun _ => inr (lit "timeout"))
                (mkAskRequest (lit "doc") (lit "q") 2) (mkWorld [] []))
  = Returns (HTTPException 502
               (lit "Upstream model error or timeout: timeout"))
  /\ ask_call (fun _ => tt) sample_query (fun _ => inr (lit "timeout"))
              (mkAskRequest (lit "doc") (lit "q") 0) (mkWorld [] [])
     = (Raises, mkWorld [] []).
Proof.
  split.
  - apply (ask_upstream_error (fun _ => tt) sample_query
             (fun _ => inr (lit "timeout"))
             (mkAskRequest (lit "doc") (lit "q") 2) (mkWorld [] [])).
    split; [reflexivity|]. split; [vm_compute; discriminate|].
    exists (lit "timeout"). repeat split.
  - apply (ask_upstream_error (fun _ => tt) sample_query
             (fun _ => inr (lit "timeout"))
             (mkAskRequest (lit "doc") (lit "q") 0) (mkWorld [] [])).
    vm_compute. discriminate.
Defined.

(** ** The [/ask] route: sources and evidence *)

Lemma insert_page_In (p x : Z) (l : list Z) :
  In x (insert_page p l) <-> x = p \/ In x l.
Proof.
  induction l as [|q l IH]; simpl; [intuition|].
  destruct (Z.ltb_spec p q); [simpl; intuition|].
  destruct (Z.eqb_spec p q); [subst; simpl; intuition|].
  simpl. rewrite IH. intuition.
Qed.

Lemma insert_page_sorted (p : Z) (l : list Z) :
  StronglySorted Z.lt l -> StronglySorted Z.lt (insert_page p l).
Proof.
  intros H. induction H as [|q l Hs IH Hq]; simpl; [repeat constructor|].
  destruct (Z.ltb_spec p q) as [Hlt|Hge].
  - constructor; [now constructor|]. constructor; [exact Hlt|].
    rewrite Forall_forall in *. intros z Hz. specialize (Hq z Hz). lia.
  - destruct (Z.eqb_spec p q) as [->|Hne]; [now constructor|].
    constructor; [exact IH|]. rewrite Forall_forall in *. intros z Hz.
    apply insert_page_In in Hz as [->|Hz]; [lia|now apply Hq].
Qed.

Lemma sorted_set_sorted (l : list Z) : StronglySorted Z.lt (sorted_set l).
Proof.
  induction l as [|p l IH]; simpl; [constructor|].
  now apply insert_page_sorted.
Qed.

Lemma sorted_set_In (l : list Z) (x : Z) : In x (sorted_set l) <-> In x l.
Proof.
  induction l as [|p l IH]; simpl; [tauto|].
  rewrite insert_page_In, IH. intuition.
Qed.

Lemma pages_not_none_In (rs : list Retrieved) (p : Z) :
  In p (pages_not_none rs) <-> exists r, In r rs /\ r_page r = Some p.
Proof.
  induction rs as [|r rs IH]; simpl.
  - split; [contradiction|]. now intros (r & [] & _).
  - destruct (r_page r) as [q|] eqn:Hq; simpl; rewrite IH; split.
    + intros [->|(x & Hx & Hp)]; [exists r; auto|exists x; auto].
    + intros (x & [->|Hx] & Hp); [left; congruence|right; exists x; auto].
    + intros (x & Hx & Hp). exists x; auto.
    + intros (x & [->|Hx] & Hp); [congruence|exists x; auto].
Qed.

(** X22: in every answer of [ask] the sources are strictly increasing, so
    without repetition, and they are exactly the page numbers carried by
    the chunks retrieved, all of them and not only those shown as
    evidence. *)
Theorem ask_sources {E : Type} (embed : str -> E)
        (query : Collection E -> list E -> Z -> str -> QueryResult)
        (llm : str -> str + str) (payload : AskRequest) (w : World E)
        (r : AskResponse)
        (Hok : fst (ask embed query llm payload w) = AskOk r) :
  StronglySorted Z.lt (resp_sources r)
  /\ forall p : Z,
      In p (resp_sources r)
      <-> exists x,
          In x (retrieve_top_k embed query (w_collection w) (doc_id payload)
                               (question payload) (top_k payload))
          /\ r_page x = Some p.
Proof.
  destruct (ask_cases embed query llm payload w)
    as [[Hr H]|[(Hr & exc & Hl & H)|(Hr & out & Hl & H)]];
    rewrite H in Hok; cbn [fst] in Hok; try discriminate;
    injection Hok as <-; cbn [resp_sources].
  - split; [constructor|]. intros p. rewrite Hr. split; [contradiction|].
    now intros (x & [] & _).
  - split; [apply sorted_set_sorted|]. intros p.
    rewrite sorted_set_In. apply pages_not_none_In.
Qed.

Lemma ask_sources_witness :
  StronglySorted Z.lt [1%Z; 2%Z].
Proof.
  apply (ask_sources (fun _ => tt) sample_query sample_llm
           (mkAskRequest (lit "doc") (lit "q") 5) (mkWorld [] [])
           (mkAskResponse (lit "doc") (lit "q")
              (lit "Item1" ++ [nl] ++ lit "- Item2" ++ [nl] ++ lit "- Item3")
              [1%Z; 2%Z]
              [mkEvidence (Some 1%Z) (lit "beta");
               mkEvidence (Some 2%Z) (lit "gamma")])).
  vm_compute. reflexivity.
Defined.

Lemma trim_excerpt_length (text : str) (max_chars : Z) :
  (0 <= max_chars)%Z ->
  (Z.of_nat (length (trim_excerpt text max_chars)) <= max_chars + 41)%Z.
Proof.
  intros Hm. unfold trim_excerpt.
  destruct (negb (truthy text)); [simpl; lia|].
  destruct (Z.leb_spec (Z.of_nat (length (collapse text))) max_chars);
    [lia|].
  pose proof (slice_to_length (collapse text) max_chars Hm).
  pose proof (slice_to_length (collapse text) (max_chars + 40) ltac:(lia)).
  pose proof (rstrip_length (slice_to (collapse text) max_chars)).
  pose proof (rstrip_length
                (slice_to (slice_to (collapse text) (max_chars + 40))
                   (rfind dot (slice_to (collapse text) (max_chars + 40)) + 1))).
  pose proof (slice_to_le (slice_to (collapse text) (max_chars + 40))
                (rfind dot (slice_to (collapse text) (max_chars + 40)) + 1)).
  destruct (_ || _); rewrite app_ellipsis_length; lia.
Qed.

(** X23: in every answer of [ask] the evidence has two entries, or as many
    as chunks were retrieved when fewer; they are for the top-ranked
    chunks, in rank order, and each excerpt has at most 301 characters. *)
Theorem ask_evidence {E : Type} (embed : str -> E)
        (query : Collection E -> list E -> Z -> str -> QueryResult)
        (llm : str -> str + str) (payload : AskRequest) (w : World E)
        (r : AskResponse)
        (Hok : fst (ask embed query llm payload w) = AskOk r) :
  let retrieved :=
    retrieve_top_k embed query (w_collection w) (doc_id payload)
                   (question payload) (top_k payload) in
  length (resp_evidence r) = Nat.min 2 (length retrieved)
  /\ map ev_page (resp_evidence r) = map r_page (firstn 2 retrieved)
  /\ Forall (fun e => length (ev_excerpt e) <= 301) (resp_evidence r).
Proof.
  intros retrieved. subst retrieved.
  destruct (ask_cases embed query llm payload w)
    as [[Hr H]|[(Hr & exc & Hl & H)|(Hr & out & Hl & H)]];
    rewrite H in Hok; cbn [fst] in Hok; try discriminate;
    injection Hok as <-; cbn [resp_evidence].
  - rewrite Hr. repeat split. constructor.
  - change (slice_to ?l 2) with (firstn 2 l).
    rewrite length_map, length_firstn, map_map. cbn [ev_page].
    repeat split. apply Forall_forall. intros e He.
    apply in_map_iff in He as (x & <- & _). cbn [ev_excerpt].
    pose proof (trim_excerpt_length (r_text x) 260 ltac:(lia)). lia.
Qed.

Lemma ask_evidence_witness :
  length [mkEvidence (Some 1%Z) (lit "beta");
          mkEvidence (Some 2%Z) (lit "gamma")] = Nat.min 2 3.
Proof.
  apply (ask_evidence (fun _ => tt) sample_query sample_llm
           (mkAskRequest (lit "doc") (lit "q") 5) (mkWorld [] [])
           (mkAskResponse (lit "doc") (lit "q")
              (lit "Item1" ++ [nl] ++ lit "- Item2" ++ [nl] ++ lit "- Item3")
              [1%Z; 2%Z]
              [mkEvidence (Some 1%Z) (lit "beta");
               mkEvidence (Some 2%Z) (lit "gamma")])).
  vm_compute. reflexivity.
Defined.

(** ** The answer holds no emphasis markup *)

Lemma startswith_pair (x c : N) (s : list N) :
  startswith [x; x] (c :: s)
  = (x =? c)%N && match s with [] => false | d :: _ => (x =? d)%N end.
Proof.
  cbn [startswith]. destruct s as [|d s]; [reflexivity|].
  now rewrite andb_true_r.
Qed.

Lemma contains_pair_cons (x c : N) (s : list N) :
  contains [x; x] (c :: s)
  = ((x =? c)%N && match s with [] => false | d :: _ => (x =? d)%N end)
    || contains [x; x] s.
Proof.
  change (contains [x; x] (c :: s))
    with (startswith [x; x] (c :: s) || contains [x; x] s).
  now rewrite startswith_pair.
Qed.

(** Removing every "**" leaves none behind. *)
Lemma remove_bold_length (n : nat) :
  forall s : str,
    length s <= n ->
    contains (lit "**") (replace_scan (lit "**") [] 0 s) = false.
Proof.
  change (lit "**") with [42%N; 42%N].
  induction n as [|n IH]; intros s Hn.
  - destruct s; [reflexivity|simpl in Hn; lia].
  - destruct s as [|c s]; [reflexivity|].
    simpl in Hn. cbn [replace_scan]. rewrite startswith_pair.
    cbn [length Nat.sub app].
    destruct (42 =? c)%N eqn:Hc; cbn [andb].
    + destruct s as [|e s];
        [cbn [replace_scan]; rewrite contains_pair_cons, andb_false_r;
         reflexivity|].
      destruct (42 =? e)%N eqn:He.
      * cbn [replace_scan]. apply IH. simpl in Hn. lia.
      * rewrite contains_pair_cons, (IH (e :: s)) by (simpl in *; lia).
        rewrite orb_false_r. cbn [replace_scan]. rewrite startswith_pair, He.
        cbn [andb]. rewrite He. apply andb_false_r.
    + rewrite contains_pair_cons, Hc. apply IH. lia.
Qed.

Lemma remove_bold (s : str) :
  contains (lit "**") (replace (lit "**") [] s) = false.
Proof. apply (remove_bold_length (length s)). lia. Qed.

Lemma contains_pair_skip (x : N) (a rest : list N) :
  forallb (fun c => negb (x =? c)%N) a = true ->
  contains [x; x] (a ++ rest) = contains [x; x] rest.
Proof.
  induction a as [|c a IH]; intros Ha; [reflexivity|].
  simpl in Ha. apply andb_true_iff in Ha as [Hc Ha].
  cbn [app]. rewrite contains_pair_cons, (IH Ha).
  destruct (x =? c)%N; [discriminate|reflexivity].
Qed.

(** Replacing by a text that is not empty and holds no [x] never brings two
    [x] together. *)
Lemma replace_scan_pair_free (x : N) (old new : list N) :
  new <> [] ->
  forallb (fun c => negb (x =? c)%N) new = true ->
  forall (s : list N) (k : nat),
    contains [x; x] s = false ->
    contains [x; x] (replace_scan old new k s) = false
    /\ (k = 0 -> forall d t, replace_scan old new 0 s = d :: t ->
                             d = x -> exists s', s = x :: s').
Proof.
  intros Hne Hnew. induction s as [|c s IH]; intros k Hs.
  - split; [reflexivity|]. intros _ d t Ht. discriminate.
  - rewrite contains_pair_cons in Hs.
    apply orb_false_iff in Hs as [Hhd Hs]. destruct k as [|k].
    + cbn [replace_scan]. destruct (startswith old (c :: s)).
      * destruct (IH (length old - 1) Hs) as [H1 _]. split.
        -- now rewrite contains_pair_skip.
        -- intros _ d t Ht ->. destruct new as [|n0 new]; [contradiction|].
           injection Ht as <- _. simpl in Hnew.
           now rewrite N.eqb_refl in Hnew.
      * destruct (IH 0 Hs) as [H1 H2]. split.
        -- rewrite contains_pair_cons, H1, orb_false_r.
           destruct (x =? c)%N eqn:Hc; [|reflexivity]. cbn [andb] in *.
           destruct (replace_scan old new 0 s) as [|d t] eqn:Hr;
             [reflexivity|].
           destruct (x =? d)%N eqn:Hd; [|reflexivity].
           apply N.eqb_eq in Hd. subst d.
           destruct (H2 eq_refl x t eq_refl eq_refl) as [s' ->].
           now rewrite N.eqb_refl in Hhd.
        -- intros _ d t Ht ->. injection Ht as -> _. now exists s.
    + cbn [replace_scan]. destruct (IH k Hs) as [H1 _].
      split; [exact H1|discriminate].
Qed.

Lemma clean_answer_no_bold (output_text : str) :
  contains (lit "**") (clean_answer output_text) = false.
Proof.
  unfold clean_answer.
  pose proof (remove_bold (strip output_text)) as H.
  destruct (_ && _); [|exact H].
  change (lit "**") with [42%N; 42%N] in *.
  apply (replace_scan_pair_free 42 (lit " - ") (nl :: lit "- ")
           ltac:(discriminate) eq_refl _ 0 H).
Qed.

(** X24: no answer of [ask] holds the emphasis markup "**", whatever the
    language model wrote. *)
Theorem ask_answer_no_bold {E : Type} (embed : str -> E)
        (query : Collection E -> list E -> Z -> str -> QueryResult)
        (llm : str -> str + str) (payload : AskRequest) (w : World E)
        (r : AskResponse)
        (Hok : fst (ask embed query llm payload w) = AskOk r) :
  contains (lit "**") (resp_answer r) = false.
Proof.
  destruct (ask_cases embed query llm payload w)
    as [[Hr H]|[(Hr & exc & Hl & H)|(Hr & out & Hl & H)]];
    rewrite H in Hok; cbn [fst] in Hok; try discriminate;
    injection Hok as <-; cbn [resp_answer].
  - vm_compute. reflexivity.
  - apply clean_answer_no_bold.
Qed.

Lemma ask_answer_no_bold_witness :
  contains (lit "**") (lit "a*b") = false.
Proof.
  apply (ask_answer_no_bold (fun _ => tt) sample_query
           (fun _ => inl (lit " **a***b** "))
           (mkAskRequest (lit "doc") (lit "q") 1) (mkWorld [] [])
           (mkAskResponse (lit "doc") (lit "q") (lit "a*b") [1%Z]
              [mkEvidence (Some 1%Z) (lit "beta")])).
  vm_compute. reflexivity.
Defined.

(** ** The delete and upload routes *)

Section RouteFacts.
Context {E : Type} (embed : str -> E).
Context {D : Type} {FS : FileSystem D}.
Context (DATA_DIR : str).

(** Whatever the file system does, [delete_doc] purges the rows of the
    document and records the delete. *)
Lemma delete_doc_world (d : str) (s : Server E D) :
  srv_world (snd (delete_doc DATA_DIR d s))
  = mkWorld (filter (fun r => negb (is_doc d (row_metadata r)))
                    (w_collection (srv_world s)))
            (w_trace (srv_world s) ++ [EvDelete d]).
Proof.
  unfold delete_doc, collection_delete.
  destruct (path_exists _ _); [|reflexivity].
  destruct (os_remove _ _) as [disk [e|]]; reflexivity.
Qed.

(** What an upload does, outcome by outcome. *)
Lemma upload_cases (filename : str) (content : list N) (uuid : str)
      (s : Server E D) :
  (exists status detail,
      fst (upload_and_index embed DATA_DIR filename content uuid s)
      = ReplyError status detail
      /\ srv_world (snd (upload_and_index embed DATA_DIR filename content
                           uuid s)) = srv_world s)
  \/ (exists disk pages chunks,
         upload_and_index embed DATA_DIR filename content uuid s
         = (ReplyOk (mkUploadBody uuid filename pages chunks true),
            mkServer (snd (index_doc_into_chroma embed uuid
                             (pdf_reader_pages
                                (path_join (UPLOAD_DIR DATA_DIR)
                                           (uuid ++ lit ".pdf")) disk)
                             (srv_world s))) disk)
         /\ fst (index_doc_into_chroma embed uuid
                   (pdf_reader_pages
                      (path_join (UPLOAD_DIR DATA_DIR) (uuid ++ lit ".pdf"))
                      disk) (srv_world s)) = SummaryOk pages chunks
         /\ endswith (lit ".pdf") (lower filename) = true
         /\ (Z.of_nat (length content) <= MAX_FILE_BYTES)%Z).
Proof.
  assert (Err : forall (status : Z) (detail : str) (disk : D),
             exists st dt,
               fst (@ReplyError UploadBody status detail,
                    mkServer (srv_world s) disk) = ReplyError st dt
               /\ srv_world (snd (@ReplyError UploadBody status detail,
                                  mkServer (srv_world s) disk))
                  = srv_world s).
  { intros status detail disk. exists status, detail. split; reflexivity. }
  unfold upload_and_index.
  destruct (endswith (lit ".pdf") (lower filename)); cbn [negb];
    [|left; destruct s; apply Err].
  destruct (Z.gtb_spec (Z.of_nat (length content)) MAX_FILE_BYTES);
    [left; destruct s; apply Err|].
  destruct (write_file (path_join (UPLOAD_DIR DATA_DIR) (uuid ++ lit ".pdf"))
                       content (srv_disk s)) as [disk [e|]];
    [left; apply Err|].
  destruct (index_doc_cases embed uuid
              (pdf_reader_pages
                 (path_join (UPLOAD_DIR DATA_DIR) (uuid ++ lit ".pdf")) disk)
              (srv_world s)) as [[_ Hi]|[(_ & _ & Hi)|(_ & _ & Hi)]];
    [left; rewrite Hi; apply Err|left; rewrite Hi; apply Err|].
  right. exists disk. eexists. eexists. rewrite Hi. cbn [fst snd].
  split; [reflexivity|]. split; [reflexivity|]. split; [reflexivity|lia].
Qed.
End RouteFacts.

(** X25: whatever happens to the file, also when its removal fails with
    an HTTP error 500, [delete_doc] leaves no row of the document in the
    collection and leaves the rows of every other document as they were. *)
Theorem delete_doc_purges {E D : Type} {FS : FileSystem D} (DATA_DIR : str)
        (d d' : str) (s : Server E D) (Hne : d' <> d) :
  doc_ids d (w_collection (srv_world (snd (delete_doc DATA_DIR d s)))) = []
  /\ filter (fun r => is_doc d' (row_metadata r))
            (w_collection (srv_world (snd (delete_doc DATA_DIR d s))))
     = filter (fun r => is_doc d' (row_metadata r))
              (w_collection (srv_world s)).
Proof.
  rewrite delete_doc_world. cbn [w_collection]. unfold doc_ids.
  rewrite purge_purged. split; [reflexivity|].
  now apply filter_other_doc.
Qed.

Lemma delete_doc_purges_witness :
  doc_ids (lit "a")
    (w_collection (srv_world (snd (delete_doc (lit "data") (lit "a")
       (mkServer
          (mkWorld [mkRow (lit "a:0") (lit "x")
                          (mkMeta (Some (lit "a")) (Some 1%Z) (Some 0%Z)) tt;
                    mkRow (lit "b:0") (lit "y")
                          (mkMeta (Some (lit "b")) (Some 1%Z) (Some 0%Z)) tt]
                   [])
          ([] : ListDisk)))))) = [].
Proof.
  apply (delete_doc_purges (lit "data") (lit "a") (lit "b")).
  vm_compute. discriminate.
Defined.

(** X26: deleting is safe to repeat: a second [delete_doc] leaves the
    collection as the first one left it; and when the file of the document
    is not on the disk, the route answers ok with the doc_id and leaves the
    disk as it was. *)
Theorem delete_doc_repeat {E D : Type} {FS : FileSystem D} (DATA_DIR : str)
        (d : str) (s : Server E D) :
  w_collection (srv_world (snd (delete_doc DATA_DIR d
                                  (snd (delete_doc DATA_DIR d s)))))
  = w_collection (srv_world (snd (delete_doc DATA_DIR d s)))
  /\ (path_exists (path_join (UPLOAD_DIR DATA_DIR) (d ++ lit ".pdf"))
                  (srv_disk s) = false ->
      fst (delete_doc DATA_DIR d s) = ReplyOk d
      /\ srv_disk (snd (delete_doc DATA_DIR d s)) = srv_disk s).
Proof.
  split.
  - rewrite !delete_doc_world. cbn [w_collection]. apply filter_idem.
  - intros Hx. unfold delete_doc, collection_delete. rewrite Hx.
    split; reflexivity.
Qed.

Lemma delete_doc_repeat_witness :
  fst (delete_doc (lit "data") (lit "a")
         (mkServer (mkWorld ([] : Collection unit) []) ([] : ListDisk)))
  = ReplyOk (lit "a").
Proof.
  destruct (delete_doc_repeat (lit "data") (lit "a")
              (mkServer (mkWorld ([] : Collection unit) []) ([] : ListDisk)))
    as [_ H].
  destruct H as [H _]; [vm_compute; reflexivity|exact H].
Defined.

(** X27: deleting undoes indexing: after a document is indexed and then
    deleted, the collection is the initial one without the rows of that
    document; it is the initial collection itself when this held no row of
    the document. *)
Theorem index_then_delete {E D : Type} {FS : FileSystem D}
        (embed : str -> E) (DATA_DIR : str) (d : str)
        (reader_pages : list (option str)) (w : World E) (disk : D) :
  let indexed_world := snd (index_doc_into_chroma embed d reader_pages w) in
  let after :=
    w_collection (srv_world (snd (delete_doc DATA_DIR d
                                    (mkServer indexed_world disk)))) in
  after = filter (fun r => negb (is_doc d (row_metadata r))) (w_collection w)
  /\ (doc_ids d (w_collection w) = [] -> after = w_collection w).
Proof.
  intros indexed_world after. subst after indexed_world.
  rewrite delete_doc_world. cbn [srv_world w_collection].
  assert (H1 : filter (fun r => negb (is_doc d (row_metadata r)))
                 (w_collection
                    (snd (index_doc_into_chroma embed d reader_pages w)))
               = filter (fun r => negb (is_doc d (row_metadata r)))
                        (w_collection w)).
  { destruct (index_doc_cases embed d reader_pages w)
      as [[_ H]|[(_ & _ & H)|(_ & _ & H)]]; rewrite H;
      cbn [snd w_collection]; try reflexivity.
    rewrite filter_app, filter_idem, purge_batch. apply app_nil_r. }
  split; [exact H1|]. intros Hnone. rewrite H1. unfold doc_ids in Hnone.
  apply map_eq_nil in Hnone. clear H1.
  induction (w_collection w) as [|r c IH]; [reflexivity|].
  simpl in *. destruct (is_doc d (row_metadata r)); [discriminate|].
  simpl. f_equal. now apply IH.
Qed.

Lemma index_then_delete_witness :
  w_collection (srv_world (snd (delete_doc (lit "data") (lit "new")
     (mkServer
        (snd (index_doc_into_chroma (fun _ => tt) (lit "new")
                [Some (lit "text")]
                (mkWorld [mkRow (lit "old:0") (lit "kept")
                            (mkMeta (Some (lit "old")) (Some 1%Z) (Some 0%Z))
                            tt] [])))
        ([] : ListDisk)))))
  = [mkRow (lit "old:0") (lit "kept")
           (mkMeta (Some (lit "old")) (Some 1%Z) (Some 0%Z)) tt].
Proof.
  destruct (index_then_delete (fun _ => tt) (lit "data") (lit "new")
              [Some (lit "text")]
              (mkWorld [mkRow (lit "old:0") (lit "kept")
                          (mkMeta (Some (lit "old")) (Some 1%Z) (Some 0%Z))
                          tt] [])
              ([] : ListDisk)) as [_ H].
  apply H. vm_compute. reflexivity.
Defined.

(** X28: the HTTP errors [upload_and_index] raises itself are four: 400
    for a file name that does not end with ".pdf", in any letter case, 413
    for a content above 25 MB, 500 for a file that could not be saved, and
    400 with the indexer's no-text error.  Whenever the route ends with
    one of them, the collection and the trace of index operations are as
    they were; for the first two nothing at all is changed, the disk
    included.  (Exceptions of the PDF reader, the embedding model or the
    collection are not among them: the route has no handler for those.) *)
Theorem upload_failure_untouched {E D : Type} {FS : FileSystem D}
        (embed : str -> E) (DATA_DIR : str) (filename : str)
        (content : list N) (uuid : str) (s : Server E D) :
  (forall status detail,
      fst (upload_and_index embed DATA_DIR filename content uuid s)
      = ReplyError status detail ->
      srv_world (snd (upload_and_index embed DATA_DIR filename content uuid s))
      = srv_world s
      /\ ((status = 400%Z
           /\ detail
              = lit "Only PDF files are supported (expected a .pdf file)."
           /\ snd (upload_and_index embed DATA_DIR filename content uuid s)
              = s)
          \/ (status = 413%Z
              /\ detail
                 = lit "File is too large. Maximum supported size is 25 MB."
              /\ snd (upload_and_index embed DATA_DIR filename content uuid s)
                 = s)
          \/ (status = 500%Z
              /\ exists e, detail = lit "Failed to save file: " ++ e)
          \/ (status = 400%Z /\ detail = ERR_NO_TEXT)))
  /\ (endswith (lit ".pdf") (lower filename) = false ->
      upload_and_index embed DATA_DIR filename content uuid s
      = (ReplyError 400
           (lit "Only PDF files are supported (expected a .pdf file)."), s)).
Proof.
  split.
  - intros status detail. unfold upload_and_index.
    destruct (endswith (lit ".pdf") (lower filename)); cbn [negb fst snd].
    2:{ intros Heq. injection Heq as <- <-. split; [reflexivity|].
        left. auto. }
    destruct (Z.of_nat (length content) >? MAX_FILE_BYTES)%Z; cbn [fst snd].
    { intros Heq. injection Heq as <- <-. split; [reflexivity|].
      right. left. auto. }
    destruct (write_file (path_join (UPLOAD_DIR DATA_DIR) (uuid ++ lit ".pdf"))
                         content (srv_disk s)) as [disk [e|]]; cbn [fst snd].
    { intros Heq. injection Heq as <- <-. split; [reflexivity|].
      right. right. left. split; [reflexivity|]. now exists e. }
    destruct (index_doc_cases embed uuid
                (pdf_reader_pages
                   (path_join (UPLOAD_DIR DATA_DIR) (uuid ++ lit ".pdf")) disk)
                (srv_world s)) as [[Hb Hi]|[(Hb & Hc & Hi)|(_ & _ & Hi)]];
      rewrite Hi; cbn [fst snd srv_world].
    + intros Heq. injection Heq as <- <-. split; [reflexivity|].
      right. right. right. auto.
    + exfalso. now apply (chunk_pages_nonempty _ Hb).
    + discriminate.
  - intros Hn. unfold upload_and_index. now rewrite Hn.
Qed.

Lemma upload_failure_untouched_witness :
  upload_and_index (fun _ => tt) (lit "data") (lit "notes.txt") [1%N; 2%N]
    (lit "id") (mkServer (mkWorld [] []) ([] : ListDisk))
  = (ReplyError 400
       (lit "Only PDF files are supported (expected a .pdf file)."),
     mkServer (mkWorld [] []) ([] : ListDisk))
  /\ srv_world
       (snd (upload_and_index (fun _ => tt) (lit "data") (lit "scan.pdf") []
               (lit "id") (mkServer (mkWorld [] []) ([] : ListDisk))))
     = mkWorld [] [].
Proof.
  split.
  - destruct (upload_failure_untouched (fun _ => tt) (lit "data")
                (lit "notes.txt") [1%N; 2%N] (lit "id")
                (mkServer (mkWorld [] []) ([] : ListDisk))) as [_ H].
    apply H. vm_compute. reflexivity.
  - destruct (upload_failure_untouched (fun _ => tt) (lit "data")
                (lit "scan.pdf") [] (lit "id")
                (mkServer (mkWorld [] []) ([] : ListDisk))) as [H _].
    destruct (H 400%Z ERR_NO_TEXT) as [Hw _]; [vm_compute; reflexivity|].
    exact Hw.
Defined.

(** X29: an upload that succeeds reports the identifier drawn, the file
    name as sent and a chunk count that is not zero and is the number of
    rows the collection then holds for that identifier; the file had a
    name ending with ".pdf" and at most 25 MB of content. *)
Theorem upload_success {E D : Type} {FS : FileSystem D}
        (embed : str -> E) (DATA_DIR : str) (filename : str)
        (content : list N) (uuid : str) (s : Server E D) (body : UploadBody)
        (Hok : fst (upload_and_index embed DATA_DIR filename content uuid s)
               = ReplyOk body) :
  up_doc_id body = uuid
  /\ up_original_filename body = filename
  /\ up_indexed body = true
  /\ 0 < up_chunks body
  /\ length (doc_ids uuid
               (w_collection
                  (srv_world (snd (upload_and_index embed DATA_DIR filename
                                     content uuid s)))))
     = up_chunks body
  /\ endswith (lit ".pdf") (lower filename) = true
  /\ (Z.of_nat (length content) <= 25 * 1024 * 1024)%Z.
Proof.
  destruct (upload_cases embed DATA_DIR filename content uuid s)
    as [(st & dt & He & _)|(disk & pages & chunks & H & Hs & Hn & Hl)];
    [rewrite He in Hok; discriminate|].
  rewrite H in *. cbn [fst snd srv_world] in *. injection Hok as <-.
  cbn [up_doc_id up_original_filename up_indexed up_chunks].
  set (rp := pdf_reader_pages
               (path_join (UPLOAD_DIR DATA_DIR) (uuid ++ lit ".pdf")) disk)
    in *.
  destruct (index_doc_cases embed uuid rp (srv_world s))
    as [[_ Hc]|[(_ & _ & Hc)|(_ & Hne & Hc)]]; rewrite Hc in Hs;
    cbn [fst] in Hs; try discriminate.
  injection Hs as <- <-. rewrite Hc. cbn [snd w_collection]. unfold doc_ids.
  rewrite filter_app, purge_purged, keep_batch. cbn [app].
  rewrite !length_map. repeat split; auto.
  destruct (chunk_pages (extract_pages_from_pdf rp));
    [contradiction|simpl; lia].
Qed.

Lemma upload_success_witness :
  up_doc_id (mkUploadBody (lit "id") (lit "Paper.PDF") 1 1 true) = lit "id".
Proof.
  apply (upload_success (fun _ => tt) (lit "data") (lit "Paper.PDF")
           (lit "some text") (lit "id")
           (mkServer (mkWorld [] []) ([] : ListDisk))).
  vm_compute. reflexivity.
Defined.

Lemma chunk_pages_nil_iff_witness :
  chunk_pages [mkPage 1 (lit "  "); mkPage 2 []] = [].
Proof.
  apply (chunk_pages_nil_iff [mkPage 1 (lit "  "); mkPage 2 []]).
  vm_compute. reflexivity.
Defined.

Lemma collapse_clean_witness :
  strip (collapse ([bullet] ++ lit " a" ++ [nl] ++ lit "b "))
  = collapse ([bullet] ++ lit " a" ++ [nl] ++ lit "b ").
Proof.
  destruct (collapse_clean ([bullet] ++ lit " a" ++ [nl] ++ lit "b "))
    as (_ & _ & H & _).
  exact H.
Defined.
